(** * The resilient HTTP client of the dashboard front end

    A shallow embedding of the axios client defined after the dashboard
    page (frontend/scr/pages/dashboard/dashboard.jsx, lines 366-523):
    the request interceptor, the response interceptor with its token
    renewal, and the module-level [pendingRequests] / [isRefreshing]
    variables.

    JavaScript runs these handlers on one event loop: a handler runs
    without interruption from its entry to its first [await] (or to its
    return).  The embedding therefore has one state-passing function per
    such uninterrupted stretch, and a [step] function that feeds the
    events of the loop (a call, a response, the settlement of the
    renewal call) to them.

    Browser and library objects are modelled as follows.
    - [localStorage] is a finite map from strings to strings:
      [getItem] is lookup, [setItem] is insert, [removeItem] is delete.
    - Header collections are finite maps from header names, as the
      code writes them, to values.
    - [toast], [window.location] and the network are an effect log.
    - [crypto.randomUUID()] is an oracle: its n-th draw is
      [randomUUID n]. *)

From stdpp Require Import gmap strings list fin_maps pretty.

Open Scope string_scope.
Open Scope list_scope.

(** ** JavaScript values that the handlers inspect *)

(** [err.loc] of one entry of a 422 body, as [err.loc?.join('.')]
    meets it. *)
Inductive Loc :=
  (** [undefined] or [null]: the optional chain yields [undefined] *)
  | LocAbsent
  (** an array, each element as [join] renders it *)
  | LocArray (l : list string)
  (** any other value: it has no [join] to call *)
  | LocOther.

(** One entry of a 422 body: [{loc: [...], msg: "..."}], with [msg] as
    the template literal renders it.  An entry that is a number, a
    string or a boolean has neither field. *)
Record ValidationError := { loc : Loc; msg : string }.

(** [data.detail] is dynamically typed.  A truthy value is a string, an
    array of entries (an entry that is [null] or [undefined] is [None]),
    or something else (a number, [true], an object), kept as its JSON
    text.  A falsy value reads like a missing field, except that the
    empty string is kept as a string. *)
Inductive Detail :=
  | DetailString (s : string)
  | DetailArray (errs : list (option ValidationError))
  | DetailOther (json : string).

(** [response.data], as far as the interceptors read it: [null] or
    [undefined], or a value with its [message] and [detail] fields.  A
    value without a field (an empty body is the empty string) has
    [None] there. *)
Inductive Body :=
  | NullBody
  | Fields (message : option string) (detail : option Detail).

(** [data?.message]. *)
Definition message (data : Body) : option string :=
  match data with
  | NullBody => None
  | Fields message _ => message
  end.

(** The [detail] field of a body that is not [null]. *)
Definition detail (data : Body) : option Detail :=
  match data with
  | NullBody => None
  | Fields _ detail => detail
  end.

(** Request descriptor (the axios config).  [silent] and [_retry] are
    custom fields; an absent field reads as [undefined], that is
    [false] under [!]. *)
Record Config := {
  url : string;
  method : string;
  payload : option string;
  headers : gmap string string;
  silent : bool;
  _retry : bool
}.

Module Response.
Record t := { status : Z; data : Body; config : Config }.
End Response.

(** The rejection value of a dispatch: [error.config] and
    [error.response] (absent when no response was received). *)
Module Error.
Record t := { config : Config; response : option Response.t }.
End Error.

(** What the refresh [try] block can throw: the explicit
    [new Error('No refresh token')], or the rejection of [axios.post]
    (no response, or a non-2xx status). *)
Inductive RefreshError :=
  | NoRefreshToken
  | RefreshRejected (status : option Z).

(** JavaScript truthiness of the values tested by the handlers. *)
Definition truthy (v : option string) : bool :=
  match v with
  | Some s => if decide (s = "") then false else true
  | None => false
  end.

(** An array is truthy even when empty. *)
Definition truthy_detail (v : option Detail) : bool :=
  match v with
  | Some (DetailString s) => truthy (Some s)
  | Some (DetailArray _) => true
  | Some (DetailOther _) => true
  | None => false
  end.

(** [v || fallback] for [data.detail || '...']. *)
Definition or_else (v : option Detail) (fallback : string) : Detail :=
  match v with
  | Some d => if truthy_detail v then d else DetailString fallback
  | None => DetailString fallback
  end.

(** [Array.prototype.join('.')]. *)
Fixpoint join_dot (l : list string) : string :=
  match l with
  | [] => ""
  | [x] => x
  | x :: rest => x +:+ "." +:+ join_dot rest
  end.

(** The template literal [`${err.loc?.join('.')}: ${err.msg}`], or
    [None] when building it throws a TypeError: [err] is [null] or
    [undefined], or [err.loc] has no [join]. *)
Definition validation_line (err : option ValidationError) : option string :=
  match err with
  | Some err =>
      match loc err with
      | LocArray l => Some (join_dot l +:+ ": " +:+ msg err)
      | LocAbsent => Some ("undefined" +:+ ": " +:+ msg err)
      | LocOther => None
      end
  | None => None
  end.

(** How a stretch of code ends. *)
Inductive Outcome :=
  | Returns
  | Throws.

(** ** Effects and state *)

Inductive Effect :=
  | ToastSuccess (m : string)
  | ToastError (m : Detail)
  | Navigate (href : string)
  (** [axios.post('/api/v1/auth/refresh', {refresh_token})] *)
  | PostRefresh (refresh_token : string)
  (** the descriptor that [api(config)] hands to the transport, as the
      request interceptor leaves it *)
  | Send (c : Config).

(** How the promise returned by a handler stands when the handler
    stops running. *)
Inductive Settled :=
  | Fulfilled (r : Response.t)
  | Rejected (e : Error.t)
  | RejectedRefresh (e : RefreshError)
  (** the handler threw while reading the body: the promise rejects
      with the TypeError *)
  | RejectedTypeError
  (** [return api(originalRequest)]: follows the replay *)
  | Replayed (c : Config)
  (** a pending promise whose resolver sits in [pendingRequests] *)
  | Queued
  (** the handler is suspended at [await axios.post(...)] *)
  | Suspended.

Record State := {
  localStorage : gmap string string;
  (** [api.defaults.headers]: the headers given to [axios.create]
      over those under [common] *)
  defaults : gmap string string;
  isRefreshing : bool;
  (** each callback closes over the [originalRequest] it replays *)
  pendingRequests : list Config;
  (** the [originalRequest] of the handler suspended at the [await] *)
  awaiting : option Config;
  (** number of [crypto.randomUUID()] draws so far *)
  draws : nat;
  (** effect log, oldest first *)
  effects : list Effect
}.

Definition set_localStorage (f : gmap string string → gmap string string) (s : State) : State :=
  {| localStorage := f (localStorage s); defaults := defaults s;
     isRefreshing := isRefreshing s; pendingRequests := pendingRequests s;
     awaiting := awaiting s; draws := draws s; effects := effects s |}.

Definition set_defaults (f : gmap string string → gmap string string) (s : State) : State :=
  {| localStorage := localStorage s; defaults := f (defaults s);
     isRefreshing := isRefreshing s; pendingRequests := pendingRequests s;
     awaiting := awaiting s; draws := draws s; effects := effects s |}.

Definition set_isRefreshing (b : bool) (s : State) : State :=
  {| localStorage := localStorage s; defaults := defaults s;
     isRefreshing := b; pendingRequests := pendingRequests s;
     awaiting := awaiting s; draws := draws s; effects := effects s |}.

Definition set_pendingRequests (l : list Config) (s : State) : State :=
  {| localStorage := localStorage s; defaults := defaults s;
     isRefreshing := isRefreshing s; pendingRequests := l;
     awaiting := awaiting s; draws := draws s; effects := effects s |}.

Definition set_awaiting (a : option Config) (s : State) : State :=
  {| localStorage := localStorage s; defaults := defaults s;
     isRefreshing := isRefreshing s; pendingRequests := pendingRequests s;
     awaiting := a; draws := draws s; effects := effects s |}.

Definition set_draws (n : nat) (s : State) : State :=
  {| localStorage := localStorage s; defaults := defaults s;
     isRefreshing := isRefreshing s; pendingRequests := pendingRequests s;
     awaiting := awaiting s; draws := n; effects := effects s |}.

(** Append one effect to the log. *)
Definition emit (e : Effect) (s : State) : State :=
  {| localStorage := localStorage s; defaults := defaults s;
     isRefreshing := isRefreshing s; pendingRequests := pendingRequests s;
     awaiting := awaiting s; draws := draws s; effects := effects s ++ [e] |}.

Definition set_headers (h : gmap string string) (c : Config) : Config :=
  {| url := url c; method := method c; payload := payload c;
     headers := h; silent := silent c; _retry := _retry c |}.

Definition set_retry (b : bool) (c : Config) : Config :=
  {| url := url c; method := method c; payload := payload c;
     headers := headers c; silent := silent c; _retry := b |}.

Definition bearer (token : string) : string := "Bearer " +:+ token.

(** The module as loaded: [axios.create({headers: {...}})] over the
    [Accept] header every axios instance starts with,
    [pendingRequests = []], [isRefreshing = false]. *)
Definition initial (ls : gmap string string) : State :=
  {| localStorage := ls;
     defaults := {[ "Accept" := "application/json, text/plain, */*";
                    "Content-Type" := "application/json";
                    "X-Requested-With" := "XMLHttpRequest" ]};
     isRefreshing := false; pendingRequests := []; awaiting := None;
     draws := 0; effects := [] |}.

(** ** The request interceptor (lines 385-402) *)

Definition request_interceptor
    (ls : gmap string string) (uuid : string) (config : Config) : Config :=
  let token := ls !! "access_token" in
  let companyId := ls !! "current_company_id" in
  let h1 := if truthy token
            then <["Authorization" := bearer (default "" token)]> (headers config)
            else headers config in
  let h2 := if truthy companyId
            then <["X-Company-Id" := default "" companyId]> h1
            else h1 in
  set_headers (<["X-Request-ID" := uuid]> h2) config.

(** ** The status switch (lines 484-519): the toasts it raises, and
    whether it runs to its end *)

(** [data.detail]: reading it from [null] or [undefined] throws a
    TypeError before anything is shown. *)
Definition read_detail (data : Body)
    (k : option Detail → list Detail * Outcome) : list Detail * Outcome :=
  match data with
  | NullBody => ([], Throws)
  | Fields _ detail => k detail
  end.

(** [data.detail.forEach(err => toast.error(...))]: one toast per
    entry, up to the first entry whose line cannot be built. *)
Fixpoint validation_toasts (errs : list (option ValidationError))
    : list Detail * Outcome :=
  match errs with
  | [] => ([], Returns)
  | err :: rest =>
      match validation_line err with
      | Some line =>
          let '(shown, outcome) := validation_toasts rest in
          (DetailString line :: shown, outcome)
      | None => ([], Throws)
      end
  end.

Definition status_switch (status : Z) (data : Body) : list Detail * Outcome :=
  match status with
  | 400 => read_detail data (λ detail, ([or_else detail "Bad request"], Returns))
  | 403 =>
      ([DetailString "You do not have permission to perform this action"],
       Returns)
  | 404 => ([DetailString "Resource not found"], Returns)
  | 422 =>
      read_detail data (λ detail,
        if truthy_detail detail then
          match detail with
          | Some (DetailArray errs) => validation_toasts errs
          | Some other => ([other], Returns)
          | None => ([], Returns)
          end
        else ([], Returns))
  | 429 => ([DetailString "Too many requests. Please slow down."], Returns)
  | 500 => ([DetailString "Internal server error"], Returns)
  | 502 | 503 | 504 =>
      ([DetailString "Service temporarily unavailable"], Returns)
  | _ => read_detail data (λ detail,
           ([or_else detail "An error occurred"], Returns))
  end%Z.

Definition emit_toasts (l : list Detail) (s : State) : State :=
  foldl (λ acc m, emit (ToastError m) acc) s l.

(** [return Promise.reject(error)] at the end of the handler, unless
    the switch threw on the way. *)
Definition rejection (error : Error.t) (outcome : Outcome) : Settled :=
  match outcome with
  | Returns => Rejected error
  | Throws => RejectedTypeError
  end.

(** ** Reading the effect log *)

(** What was logged between an earlier state and a later one. *)
Definition emitted (s s' : State) : list Effect :=
  drop (length (effects s)) (effects s').

(** The descriptors handed to the transport, in order. *)
Definition sends (l : list Effect) : list Config :=
  omap (λ e, match e with Send c => Some c | _ => None end) l.

(** The renewal calls, each with the refresh token it carried. *)
Definition refresh_calls (l : list Effect) : list string :=
  omap (λ e, match e with PostRefresh t => Some t | _ => None end) l.

(** The notifications shown to the user. *)
Definition toasts (l : list Effect) : list Effect :=
  omap (λ e, match e with ToastSuccess _ | ToastError _ => Some e | _ => None end) l.

(** The 401 branch of the error handler is taken: [status === 401 &&
    !originalRequest._retry]. *)
Definition takes_renewal_path (error : Error.t) : bool :=
  match Error.response error with
  | Some response =>
      bool_decide (Response.status response = 401%Z)
      && negb (_retry (Error.config error))
  | None => false
  end.

Section Client.

(** The n-th value returned by [crypto.randomUUID()]. *)
Variable randomUUID : nat → string.

(** [api(config)]: axios lays the headers of the call over the
    defaults of the instance, runs the request interceptor, and hands
    the result to the transport. *)
Definition api (config : Config) (s : State) : State :=
  let merged := set_headers (headers config ∪ defaults s) config in
  let sent := request_interceptor (localStorage s) (randomUUID (draws s)) merged in
  emit (Send sent) (set_draws (S (draws s)) s).

(** ** The response interceptor: success handler (lines 410-416) *)

Definition on_fulfilled (response : Response.t) (s : State) : State * Settled :=
  let s1 :=
    if truthy (message (Response.data response))
       && negb (silent (Response.config response))
    then emit (ToastSuccess (default "" (message (Response.data response)))) s
    else s in
  (s1, Fulfilled response).

(** The [catch] block (lines 466-477) followed by [finally]. *)
Definition refresh_failed (refreshError : RefreshError) (s : State) : State * Settled :=
  let s1 := set_localStorage (delete "access_token") s in
  let s2 := set_localStorage (delete "refresh_token") s1 in
  let s3 := set_localStorage (delete "user") s2 in
  let s4 := set_localStorage (delete "current_company_id") s3 in
  let s5 := emit (Navigate "/login") s4 in
  let s6 := emit (ToastError (DetailString "Session expired. Please login again.")) s5 in
  (set_isRefreshing false s6, RejectedRefresh refreshError).

(** The [try] block after the [await] (lines 452-465) followed by
    [finally]; [originalRequest] already carries [_retry]. *)
Definition refresh_succeeded
    (access_token refresh_token : string) (originalRequest : Config)
    (s : State) : State * Settled :=
  let s1 := set_localStorage (<["access_token" := access_token]>) s in
  let s2 := set_localStorage (<["refresh_token" := refresh_token]>) s1 in
  let s3 := set_defaults (<["Authorization" := bearer access_token]>) s2 in
  let originalRequest' :=
    set_headers (<["Authorization" := bearer access_token]> (headers originalRequest))
                originalRequest in
  let s4 := foldl (λ acc callback, api callback acc) s3 (pendingRequests s3) in
  let s5 := set_pendingRequests [] s4 in
  let s6 := api originalRequest' s5 in
  (set_isRefreshing false s6, Replayed originalRequest').

(** ** The response interceptor: error handler up to its first
    [await] (lines 417-450 and 484-521).  The handler is an [async]
    function: an exception that escapes it rejects the promise it
    returned. *)

Definition on_rejected (error : Error.t) (s : State) : State * Settled :=
  let originalRequest := Error.config error in
  match Error.response error with
  | None =>
      (emit (ToastError (DetailString "Network error. Please check your connection.")) s,
       Rejected error)
  | Some response =>
      let status := Response.status response in
      let data := Response.data response in
      if bool_decide (status = 401%Z) && negb (_retry originalRequest) then
        if isRefreshing s then
          (set_pendingRequests (pendingRequests s ++ [originalRequest]) s, Queued)
        else
          let originalRequest' := set_retry true originalRequest in
          let s1 := set_isRefreshing true s in
          let refreshToken := localStorage s1 !! "refresh_token" in
          if negb (truthy refreshToken) then
            refresh_failed NoRefreshToken s1
          else
            (set_awaiting (Some originalRequest')
               (emit (PostRefresh (default "" refreshToken)) s1),
             Suspended)
      else
        let '(shown, outcome) := status_switch status data in
        (emit_toasts shown s, rejection error outcome)
  end.

(** ** The event loop *)

Inductive Event :=
  (** a caller invokes [api(config)] *)
  | Call (config : Config)
  (** the transport delivers a 2xx response *)
  | Success (response : Response.t)
  (** the transport delivers a failure *)
  | Failure (error : Error.t)
  (** [axios.post('/api/v1/auth/refresh')] resolves *)
  | RefreshResolved (access_token refresh_token : string)
  (** [axios.post('/api/v1/auth/refresh')] rejects *)
  | RefreshFailed (status : option Z).

(** One turn of the loop.  The settlement of the renewal call is only
    delivered to a suspended handler; with none suspended there is
    nothing to resume. *)
Definition step (ev : Event) (s : State) : State * option Settled :=
  match ev with
  | Call config => (api config s, None)
  | Success response =>
      let '(s', r) := on_fulfilled response s in (s', Some r)
  | Failure error =>
      let '(s', r) := on_rejected error s in (s', Some r)
  | RefreshResolved access_token refresh_token =>
      match awaiting s with
      | Some originalRequest =>
          let '(s', r) :=
            refresh_succeeded access_token refresh_token originalRequest
                              (set_awaiting None s) in
          (s', Some r)
      | None => (s, None)
      end
  | RefreshFailed status =>
      match awaiting s with
      | Some _ =>
          let '(s', r) := refresh_failed (RefreshRejected status) (set_awaiting None s) in
          (s', Some r)
      | None => (s, None)
      end
  end.

(** Run a sequence of events, collecting what each handler returned. *)
Fixpoint run (evs : list Event) (s : State) : State * list (option Settled) :=
  match evs with
  | [] => (s, [])
  | ev :: rest =>
      let '(s1, r) := step ev s in
      let '(s2, rs) := run rest s1 in
      (s2, r :: rs)
  end.

End Client.

(** [api(config)] as a function of what it reads: the descriptor that
    reaches the transport. *)
Definition outgoing
    (ls dflt : gmap string string) (uuid : string) (config : Config) : Config :=
  request_interceptor ls uuid (set_headers (headers config ∪ dflt) config).

(** The response carries status 401, retried or not. *)
Definition is_401 (error : Error.t) : bool :=
  match Error.response error with
  | Some response => bool_decide (Response.status response = 401%Z)
  | None => false
  end.

(** A 422 whose body gives the switch nothing to show: no truthy
    [detail], or an empty list. *)
Definition validation_without_detail (error : Error.t) : Prop :=
  ∃ response,
    Error.response error = Some response
    ∧ Response.status response = 422%Z
    ∧ (truthy_detail (detail (Response.data response)) = false
       ∨ detail (Response.data response) = Some (DetailArray [])).

(** The statuses whose case of the switch does not read the body. *)
Definition fixed_message (status : Z) : bool :=
  bool_decide (status ∈ [403; 404; 429; 500; 502; 503; 504]%Z).

(** The switch can read what its case needs of the body: the case
    shows a fixed message, or the body is not [null] and, where the
    case of 422 walks a list, every entry of it can be rendered. *)
Definition renders (err : option ValidationError) : bool :=
  match validation_line err with
  | Some _ => true
  | None => false
  end.

Definition readable (status : Z) (data : Body) : bool :=
  fixed_message status
  || match data with
     | NullBody => false
     | Fields _ (Some (DetailArray errs)) =>
         if bool_decide (status = 422%Z) then forallb renders errs else true
     | Fields _ _ => true
     end.

(** No response at all leaves nothing to read. *)
Definition readable_error (error : Error.t) : bool :=
  match Error.response error with
  | Some response =>
      readable (Response.status response) (Response.data response)
  | None => true
  end.

(** The statuses that have a case of their own in the switch, and 401. *)
Definition listed : list Z :=
  [400; 401; 403; 404; 422; 429; 500; 502; 503; 504]%Z.

(** A dispatched descriptor is the given one but for its headers. *)
Definition same_request (sent c : Config) : Prop :=
  url sent = url c ∧ method sent = method c ∧ payload sent = payload c
  ∧ silent sent = silent c ∧ _retry sent = _retry c.

(** The trace id each dispatched descriptor carries. *)
Definition request_ids (l : list Config) : list (option string) :=
  (λ c, headers c !! "X-Request-ID") <$> l.

(** The k-th descriptor handed to the transport carries the k-th draw
    of [crypto.randomUUID()]. *)
Definition ids_in_order (randomUUID : nat → string) (s : State) : Prop :=
  request_ids (sends (effects s))
  = (λ n, Some (randomUUID n)) <$> seq 0 (draws s).

(** ** Header names

    The header collections above are keyed by the names as the code
    writes them ([config.headers.Authorization = ...] is a property
    write), and [Send] logs the descriptor as it leaves the request
    interceptor.  axios itself matches header names without regard to
    case when it lays the headers of a call over its defaults, and its
    adapter may still drop a header on the way to the wire
    ([Content-Type] of a request that has no body).  The two views
    agree on the headers the client manages for every descriptor that
    spells their names the way the client does. *)

(** A name in lower case, the form in which names are matched. *)
Definition lower_ascii (a : Ascii.ascii) : Ascii.ascii :=
  let n := Ascii.nat_of_ascii a in
  if bool_decide (65 ≤ n ≤ 90)%nat then Ascii.ascii_of_nat (n + 32) else a.

Fixpoint lower (name : string) : string :=
  match name with
  | EmptyString => EmptyString
  | String a rest => String (lower_ascii a) (lower rest)
  end.

(** The header names that appear in the client's code, and [Accept],
    which every axios instance sets. *)
Definition client_headers : list string :=
  ["Accept"; "Authorization"; "Content-Type"; "X-Company-Id";
   "X-Request-ID"; "X-Requested-With"].

(** A name of the collection that matches a name of the client without
    regard to case is that name. *)
Definition spelled_as_client (h : gmap string string) : Prop :=
  ∀ name name', is_Some (h !! name) → name' ∈ client_headers →
                lower name = lower name' → name = name'.

(** No usable refresh token is stored and no renewal is under way. *)
Definition Unauthenticated (s : State) : Prop :=
  truthy (localStorage s !! "refresh_token") = false
  ∧ isRefreshing s = false
  ∧ awaiting s = None.

(** A 401 answer is failed on the spot: the caller gets the error back,
    or the 'No refresh token' error of the guard before the renewal
    call, or the TypeError of a body that cannot be read. *)
Definition fails_at_once (ev : Event) (r : option Settled) : Prop :=
  match ev with
  | Failure error =>
      if is_401 error
      then r = Some (Rejected error)
           ∨ r = Some (RejectedRefresh NoRefreshToken)
           ∨ r = Some RejectedTypeError
      else True
  | _ => True
  end.

(** ** Concrete descriptors and states used in the examples *)

Definition uuid_of (n : nat) : string := "uuid-" +:+ pretty n.

Definition stored (access refresh : string) : gmap string string :=
  {[ "access_token" := access; "refresh_token" := refresh;
     "current_company_id" := "7" ]}.

Definition get (path : string) : Config :=
  {| url := path; method := "get"; payload := None; headers := ∅;
     silent := false; _retry := false |}.

(** An empty body: axios hands it over as the empty string. *)
Definition no_body : Body := Fields None None.

(** A call that asks for another representation than the default. *)
Definition csv_report : Config :=
  {| url := "/reports/export"; method := "get"; payload := None;
     headers := {[ "Accept" := "text/csv" ]};
     silent := true; _retry := false |}.

Definition failed (status : Z) (body : Body) (c : Config) : Error.t :=
  {| Error.config := c;
     Error.response :=
       Some {| Response.status := status; Response.data := body;
               Response.config := c |} |}.

Definition expired (c : Config) : Error.t := failed 401 no_body c.

(** A session with the credential pair A1/R1 of the specification's
    scenario, and three requests dispatched in it. *)
Definition session : State := initial (stored "A1" "R1").

(** The descriptor as the n-th dispatch of the session sends it. *)
Definition sent_as (n : nat) (c : Config) : Config :=
  outgoing (stored "A1" "R1") (defaults session) (uuid_of n) c.

Definition three_calls : list Event :=
  [Call (get "/a"); Call (get "/b"); Call (get "/c")].

Definition three_expired : list Event :=
  [Failure (expired (sent_as 0 (get "/a")));
   Failure (expired (sent_as 1 (get "/b")));
   Failure (expired (sent_as 2 (get "/c")))].

(** After the three calls; after the three 401 answers. *)
Definition in_flight : State := (run uuid_of three_calls session).1.
Definition renewing : State := (run uuid_of three_expired in_flight).1.

Definition invalid_email : Body :=
  Fields None
    (Some (DetailArray [ Some {| loc := LocArray ["body"; "email"];
                                 msg := "not a valid address" |};
                         Some {| loc := LocAbsent; msg := "missing" |} ])).

(** ** Measures over a run *)

(** The event is a settlement of the renewal call. *)
Definition is_answer (ev : Event) : bool :=
  match ev with
  | RefreshResolved _ _ | RefreshFailed _ => true
  | _ => false
  end.

(** How many settlements of the renewal call a run contains. *)
Definition answers (evs : list Event) : nat :=
  length (filter (λ ev, is_answer ev = true) evs).

(** [isRefreshing] is raised exactly while a handler waits at the
    [await] of the renewal call. *)
Definition flag_tracks_renewal (s : State) : Prop :=
  isRefreshing s = bool_decide (is_Some (awaiting s)).

(** The renewal calls not yet settled: one while a handler waits. *)
Definition awaited (s : State) : nat :=
  match awaiting s with Some _ => 1 | None => 0 end.

(** One for a settlement of the renewal call. *)
Definition answer_count (ev : Event) : nat :=
  if is_answer ev then 1 else 0.

(** What the [catch] block shows: the redirection and its toast. *)
Definition teardown : list Effect :=
  [Navigate "/login";
   ToastError (DetailString "Session expired. Please login again.")].

(** The store holds both tokens or neither. *)
Definition paired (ls : gmap string string) : Prop :=
  is_Some (ls !! "access_token") ↔ is_Some (ls !! "refresh_token").

(** ** [createPaginatedQuery] (lines 881-893) *)

Module Pagination.

(** A value of a query parameter. *)
Inductive Param :=
  | Number (n : nat)
  | Text (s : string).

(** [response.data] of one page, as far as the helper reads it:
    the truthiness of [has_more], and [total].  [rows] stands for the
    rest of the body. *)
Record PageBody := {
  has_more : bool;
  body_total : option nat;
  rows : list string
}.

(** What [queryFn] resolves to. *)
Record Page := {
  data : PageBody;
  nextPage : option nat;
  total : option nat
}.

Section Helper.

Context {Key : Type}.

(** [options]: its [params], and the keys that the final [...options]
    would lay over the three keys the helper builds.  Any other key
    of [options] is carried over for the query library. *)
Record Options := {
  params : option (gmap string Param);
  options_queryKey : option Key;
  options_queryFn : option (option nat → option Page);
  options_getNextPageParam : option (Page → option nat)
}.

Record Query := {
  queryKey : Key;
  queryFn : option nat → option Page;
  getNextPageParam : Page → option nat
}.

(** [fetchFn]: the request for these parameters resolves to a body, or
    rejects ([None]). *)
Variable fetchFn : gmap string Param → option PageBody.

(** [{ page: pageParam, ...options.params }]: the keys of
    [options.params] are laid over [page]. *)
Definition request_params (options : Options) (pageParam : nat)
    : gmap string Param :=
  default ∅ (params options) ∪ {[ "page" := Number pageParam ]}.

(** The [queryFn] the helper builds; [pageParam = 1] when the library
    passes none. *)
Definition built_queryFn (options : Options) (pageParam : option nat)
    : option Page :=
  let pageParam := default 1 pageParam in
  match fetchFn (request_params options pageParam) with
  | Some response_data =>
      Some {| data := response_data;
              nextPage := if has_more response_data
                          then Some (pageParam + 1) else None;
              total := body_total response_data |}
  | None => None
  end.

Definition createPaginatedQuery (key : Key) (options : Options) : Query :=
  {| queryKey := default key (options_queryKey options);
     queryFn := default (built_queryFn options) (options_queryFn options);
     getNextPageParam := default nextPage (options_getNextPageParam options) |}.

(** A consumer that keeps asking for the next page, as an infinite
    query does when its user scrolls on: it calls [queryFn], hands the
    page to [getNextPageParam], and goes on with the answer until there
    is none, the fetch rejects, or [fuel] requests have been made. *)
Fixpoint pages (fuel : nat) (q : Query) (pageParam : option nat) : list Page :=
  match fuel with
  | 0 => []
  | S fuel' =>
      match queryFn q pageParam with
      | Some page =>
          page :: match getNextPageParam q page with
                  | Some next => pages fuel' q (Some next)
                  | None => []
                  end
      | None => []
      end
  end.

End Helper.

(** Options that only carry query parameters. *)
Definition only_params {Key : Type} (p : option (gmap string Param))
    : @Options Key :=
  {| params := p; options_queryKey := None; options_queryFn := None;
     options_getNextPageParam := None |}.

(** A listing of three pages, answering by the [page] parameter. *)
Definition requested_page (request : gmap string Param) : nat :=
  match request !! "page" with
  | Some (Number p) => p
  | _ => 1
  end.

Definition three_pages (p : nat) : PageBody :=
  {| has_more := bool_decide (p < 3);
     body_total := Some 25;
     rows := ["page " +:+ pretty p] |}.

Definition listing (request : gmap string Param) : option PageBody :=
  Some (three_pages (requested_page request)).

End Pagination.

(** ** [downloadFile] (lines 869-878) *)

Module Download.

(** The part of the browser that [downloadFile] touches: the child
    nodes of [document.body], the registry of object URLs with the blob
    each stands for, counters for the nodes and URLs handed out so far,
    and the downloads started (file name and the content the link
    resolved to). *)
Record Browser := {
  children : list nat;
  objectURLs : gmap string string;
  created_nodes : nat;
  created_urls : nat;
  downloads : list (string * option string)
}.

(** [window.URL.createObjectURL(blob)] hands out a new URL. *)
Definition object_url (n : nat) : string := "blob:" +:+ pretty n.

Definition downloadFile (blob filename : string) (b : Browser) : Browser :=
  (* const url = window.URL.createObjectURL(blob) *)
  let url := object_url (created_urls b) in
  let registry := <[url := blob]> (objectURLs b) in
  (* const a = document.createElement('a'); a.href = url; a.download = filename *)
  let a := created_nodes b in
  let href := url in
  let download := filename in
  (* document.body.appendChild(a) *)
  let body1 := children b ++ [a] in
  (* a.click() *)
  let started := downloads b ++ [(download, registry !! href)] in
  (* document.body.removeChild(a) *)
  let body2 := filter (λ n, n ≠ a) body1 in
  (* window.URL.revokeObjectURL(url) *)
  let registry' := delete url registry in
  {| children := body2; objectURLs := registry';
     created_nodes := S (created_nodes b); created_urls := S (created_urls b);
     downloads := started |}.

(** Nodes and URLs handed out so far are below the counters. *)
Definition well_formed (b : Browser) : Prop :=
  Forall (λ n, (n < created_nodes b)%nat) (children b)
  ∧ ∀ n : nat, (created_urls b ≤ n)%nat → objectURLs b !! object_url n = None.

Definition empty_page : Browser :=
  {| children := [0; 1]; objectURLs := ∅; created_nodes := 2;
     created_urls := 0; downloads := [] |}.

End Download.

(** * Properties *)

Section Properties.

Variable randomUUID : nat → string.

Lemma emitted_app (s s' : State) (l : list Effect) :
  effects s' = effects s ++ l → emitted s s' = l.
Proof.
  unfold emitted. intros ->. by rewrite drop_app_length.
Qed.

Lemma emitted_refl (s : State) : emitted s s = [].
Proof. apply emitted_app. by rewrite app_nil_r. Qed.

Lemma emitted_emit (e : Effect) (s : State) : emitted s (emit e s) = [e].
Proof. by apply emitted_app. Qed.

Lemma emit_toasts_effects (l : list Detail) (s : State) :
  effects (emit_toasts l s) = effects s ++ (ToastError <$> l).
Proof.
  unfold emit_toasts. revert s.
  induction l as [|m l IH]; intros s; simpl.
  - by rewrite app_nil_r.
  - rewrite IH. simpl. by rewrite <- app_assoc.
Qed.

(** Raising toasts touches nothing but the log. *)
Lemma emit_toasts_frame (l : list Detail) (s : State) :
  localStorage (emit_toasts l s) = localStorage s
  ∧ defaults (emit_toasts l s) = defaults s
  ∧ isRefreshing (emit_toasts l s) = isRefreshing s
  ∧ pendingRequests (emit_toasts l s) = pendingRequests s
  ∧ awaiting (emit_toasts l s) = awaiting s
  ∧ draws (emit_toasts l s) = draws s.
Proof.
  unfold emit_toasts. revert s.
  induction l as [|m l IH]; intros s; simpl; [done|].
  by destruct (IH (emit (ToastError m) s)) as (->&->&->&->&->&->).
Qed.

Lemma toasts_of_errors (l : list Detail) :
  toasts (ToastError <$> l) = ToastError <$> l.
Proof.
  unfold toasts. induction l as [|m l IH]; [done|].
  rewrite fmap_cons. simpl. by f_equal.
Qed.

Lemma sends_of_errors (l : list Detail) : sends (ToastError <$> l) = [].
Proof. by induction l. Qed.

Lemma refresh_calls_of_errors (l : list Detail) :
  refresh_calls (ToastError <$> l) = [].
Proof. by induction l. Qed.

(** ** The error handler outside the renewal branch *)

Lemma on_rejected_no_response (error : Error.t) (s : State) :
  Error.response error = None →
  on_rejected error s
  = (emit (ToastError
             (DetailString "Network error. Please check your connection.")) s,
     Rejected error).
Proof. unfold on_rejected. by intros ->. Qed.

(** With a response and outside the renewal branch, the switch
    decides. *)
Lemma on_rejected_switch (error : Error.t) (response : Response.t) (s : State) :
  Error.response error = Some response →
  takes_renewal_path error = false →
  on_rejected error s
  = (emit_toasts
       (status_switch (Response.status response) (Response.data response)).1 s,
     rejection error
       (status_switch (Response.status response) (Response.data response)).2).
Proof.
  unfold takes_renewal_path, on_rejected. intros -> ->.
  by destruct (status_switch _ _).
Qed.

Lemma not_401_not_renewed (error : Error.t) :
  is_401 error = false → takes_renewal_path error = false.
Proof.
  unfold is_401, takes_renewal_path.
  destruct (Error.response error); [|done]. by intros ->.
Qed.

(** A status without a case of its own, 401 among them, falls to
    [default]. *)
Lemma status_switch_default (status : Z) (data : Body) :
  status ≠ 400%Z → status ≠ 403%Z → status ≠ 404%Z → status ≠ 422%Z →
  status ≠ 429%Z → status ≠ 500%Z → status ≠ 502%Z → status ≠ 503%Z →
  status ≠ 504%Z →
  status_switch status data
  = read_detail data (λ detail, ([or_else detail "An error occurred"], Returns)).
Proof.
  intros. destruct status as [|p|p]; try done.
  do 10 (try (destruct p as [p|p|]; try done)).
Qed.

(** Case analysis on the status, along the cases of the switch. *)
Ltac by_status status :=
  destruct (decide (status = 400%Z)) as [->|?];
  [|destruct (decide (status = 403%Z)) as [->|?];
    [|destruct (decide (status = 404%Z)) as [->|?];
      [|destruct (decide (status = 422%Z)) as [->|?];
        [|destruct (decide (status = 429%Z)) as [->|?];
          [|destruct (decide (status = 500%Z)) as [->|?];
            [|destruct (decide (status = 502%Z)) as [->|?];
              [|destruct (decide (status = 503%Z)) as [->|?];
                [|destruct (decide (status = 504%Z)) as [->|?];
                  [|rewrite (status_switch_default status) by done]]]]]]]]].

Lemma validation_toasts_returns (errs : list (option ValidationError)) :
  (validation_toasts errs).2 = Returns →
  Forall2 (λ err shown, ∃ line, validation_line err = Some line
                                ∧ shown = DetailString line)
          errs (validation_toasts errs).1.
Proof.
  induction errs as [|err rest IH]; simpl; [constructor|].
  destruct (validation_line err) as [line|] eqn:Hline; [|done].
  destruct (validation_toasts rest) as [shown outcome]. simpl in *.
  intros ->. constructor; [by exists line|by apply IH].
Qed.

Lemma validation_toasts_nil (errs : list (option ValidationError)) :
  (validation_toasts errs).2 = Returns →
  (validation_toasts errs).1 = [] ↔ errs = [].
Proof.
  destruct errs as [|err rest]; simpl; [done|].
  destruct (validation_line err); [|done].
  by destruct (validation_toasts rest).
Qed.

(** The switch ends without a toast only for a 422 that has nothing
    to show. *)
Lemma switch_shows_nothing (status : Z) (data : Body) :
  (status_switch status data).2 = Returns →
  (status_switch status data).1 = []
  ↔ status = 422%Z
    ∧ (truthy_detail (detail data) = false
       ∨ detail data = Some (DetailArray [])).
Proof.
  by_status status; try (by intros _; split; [|intros [? _]]).
  - destruct data as [|m d]; [done|]. by intros _; split; [|intros [? _]].
  - destruct data as [|m d]; [done|]. simpl.
    destruct (truthy_detail d) eqn:Ht.
    + destruct d as [[text|errs|json]|]; simpl; try done.
      * intros _. split; [done|]. intros [_ [?|?]]; done.
      * intros Hret. rewrite (validation_toasts_nil errs Hret).
        split; [intros ->; auto|]. intros [_ [?|[= ->]]]; done.
      * intros _. split; [done|]. intros [_ [?|?]]; done.
    + intros _. split; [auto|done].
  - destruct data as [|m d]; [done|]. by intros _; split; [|intros [? _]].
Qed.

Lemma validation_toasts_outcome (errs : list (option ValidationError)) :
  (validation_toasts errs).2 = (if forallb renders errs then Returns else Throws).
Proof.
  induction errs as [|err rest IH]; [done|].
  simpl. unfold renders at 1.
  destruct (validation_line err); [|done].
  destruct (validation_toasts rest). simpl in *. by rewrite IH.
Qed.

(** The switch runs to its end exactly on the bodies it can read. *)
Lemma switch_outcome (status : Z) (data : Body) :
  (status_switch status data).2
  = (if readable status data then Returns else Throws).
Proof.
  unfold readable.
  by_status status; try done.
  - by destruct data as [|m [[text|errs|json]|]].
  - destruct data as [|m [[text|errs|json]|]]; simpl; try done.
    + by destruct (decide (text = "")).
    + apply validation_toasts_outcome.
  - destruct (fixed_message status) eqn:Hfixed.
    + apply bool_decide_eq_true in Hfixed.
      repeat (apply elem_of_cons in Hfixed as [->|Hfixed]; [congruence|]).
      by apply elem_of_nil in Hfixed.
    + destruct data as [|m [[text|errs|json]|]]; simpl; try done.
      by rewrite bool_decide_eq_false_2.
Qed.

(** ** The success handler *)

Lemma on_fulfilled_emitted (response : Response.t) (s : State) :
  emitted s (on_fulfilled response s).1
  = (if truthy (message (Response.data response))
        && negb (silent (Response.config response))
     then [ToastSuccess (default "" (message (Response.data response)))]
     else []).
Proof.
  unfold on_fulfilled. simpl.
  destruct (truthy _ && negb _); [by apply emitted_app | apply emitted_refl].
Qed.

Lemma on_fulfilled_frame (response : Response.t) (s : State) :
  let s' := (on_fulfilled response s).1 in
  localStorage s' = localStorage s
  ∧ defaults s' = defaults s
  ∧ isRefreshing s' = isRefreshing s
  ∧ pendingRequests s' = pendingRequests s
  ∧ awaiting s' = awaiting s.
Proof. unfold on_fulfilled. simpl. by destruct (truthy _ && negb _). Qed.

(** C10. Every 2xx response is returned to the caller unchanged.  A
    success notification is raised if and only if the body has a
    (non-empty) [message] and the request is not marked [silent]; it
    then shows that message.  Nothing else happens: the credential
    store, the client defaults, [isRefreshing], [pendingRequests] and
    the suspended renewal are as before, and neither a renewal call nor
    a dispatch is issued. *)
Theorem success_returned_unchanged (response : Response.t) (s : State) :
  let s' := (on_fulfilled response s).1 in
  let m := message (Response.data response) in
  (on_fulfilled response s).2 = Fulfilled response
  ∧ ((∃ t, ToastSuccess t ∈ emitted s s')
     ↔ (truthy m = true ∧ silent (Response.config response) = false))
  ∧ emitted s s'
    = (if truthy m && negb (silent (Response.config response))
       then [ToastSuccess (default "" m)] else [])
  ∧ localStorage s' = localStorage s
  ∧ defaults s' = defaults s
  ∧ isRefreshing s' = isRefreshing s
  ∧ pendingRequests s' = pendingRequests s
  ∧ awaiting s' = awaiting s
  ∧ refresh_calls (emitted s s') = []
  ∧ sends (emitted s s') = [].
Proof.
  intros s' m. subst s'.
  rewrite on_fulfilled_emitted. fold m.
  destruct (on_fulfilled_frame response s) as (-> & -> & -> & -> & ->).
  split; [done|].
  destruct (truthy m) eqn:Hm;
    destruct (silent (Response.config response)) eqn:Hs; simpl.
  all: split; [split; [intros [t Ht] | intros [? ?]] | done].
  all: try (by apply elem_of_nil in Ht).
  all: try done.
  eexists. by apply list_elem_of_singleton.
Qed.

(** ** The failures that are not renewed *)

(** What a failure shows and how it settles, in any state. *)
Lemma on_rejected_shown (error : Error.t) (s : State) :
  takes_renewal_path error = false →
  ∃ shown outcome,
    on_rejected error s = (emit_toasts shown s, rejection error outcome)
    ∧ match Error.response error with
      | Some response =>
          status_switch (Response.status response) (Response.data response)
          = (shown, outcome)
      | None =>
          shown = [DetailString "Network error. Please check your connection."]
          ∧ outcome = Returns
      end.
Proof.
  intros Hpath. destruct (Error.response error) as [response|] eqn:Hr.
  - rewrite (on_rejected_switch error response s Hr Hpath).
    destruct (status_switch _ _) as [shown outcome]. by exists shown, outcome.
  - rewrite (on_rejected_no_response error s Hr).
    by exists [DetailString "Network error. Please check your connection."],
              Returns.
Qed.

(** On a body it can read, the handler runs to its end and rejects
    with the error it was given. *)
Lemma on_rejected_readable (error : Error.t) (s : State) :
  takes_renewal_path error = false →
  readable_error error = true →
  ∃ shown,
    on_rejected error s = (emit_toasts shown s, Rejected error)
    ∧ match Error.response error with
      | Some response =>
          status_switch (Response.status response) (Response.data response)
          = (shown, Returns)
      | None =>
          shown = [DetailString "Network error. Please check your connection."]
      end.
Proof.
  intros Hpath Hread.
  destruct (on_rejected_shown error s Hpath) as (shown & outcome & Hs & Hsw).
  exists shown. unfold readable_error in Hread.
  destruct (Error.response error) as [response|].
  - pose proof (switch_outcome (Response.status response)
                  (Response.data response)) as Hout.
    rewrite Hread, Hsw in Hout. simpl in Hout. by subst outcome.
  - by destruct Hsw as [-> ->].
Qed.

(** C6, as amended.  The handler computes no error kind: for a failure
    whose status is not 401 it rejects with the error as it came, and
    the classification shows in what it notifies.  On every body that
    the switch can read, the notification is a function of the raw
    outcome alone, the same in every state of the client, and follows
    the status table: no response gives the
    connectivity message whatever else the error holds; 400 the
    server's detail, or 'Bad request'; 403 the permission message; 404
    the not-found message; 422 one message per entry of a list, made
    of the entry's field path and its message, and the detail itself
    when it is a non-empty string; 429 the slow-down message; 500 the
    server-error message; 502, 503 and 504 the unavailable message; and
    every other status the server's detail, or 'An error occurred'. *)
Theorem classification_follows_table (error : Error.t) (s s' : State) :
  is_401 error = false →
  readable_error error = true →
  let shown := emitted s (on_rejected error s).1 in
  (on_rejected error s).2 = Rejected error
  ∧ (on_rejected error s').2 = Rejected error
  ∧ emitted s' (on_rejected error s').1 = shown
  ∧ match Error.response error with
    | None =>
        shown
        = [ToastError
             (DetailString "Network error. Please check your connection.")]
    | Some response =>
        let status := Response.status response in
        let data := Response.data response in
        (status = 400%Z
         → shown = [ToastError (or_else (detail data) "Bad request")])
        ∧ (status = 403%Z
           → shown = [ToastError (DetailString
                        "You do not have permission to perform this action")])
        ∧ (status = 404%Z
           → shown = [ToastError (DetailString "Resource not found")])
        ∧ (status = 422%Z
           → (∀ errs, detail data = Some (DetailArray errs) →
                Forall2 (λ err toast,
                           ∃ line, validation_line err = Some line
                                   ∧ toast = ToastError (DetailString line))
                        errs shown)
             ∧ (∀ text, detail data = Some (DetailString text) → text ≠ "" →
                  shown = [ToastError (DetailString text)]))
        ∧ (status = 429%Z
           → shown = [ToastError (DetailString
                        "Too many requests. Please slow down.")])
        ∧ (status = 500%Z
           → shown = [ToastError (DetailString "Internal server error")])
        ∧ (status = 502%Z ∨ status = 503%Z ∨ status = 504%Z
           → shown = [ToastError (DetailString
                        "Service temporarily unavailable")])
        ∧ (status ∉ listed
           → shown = [ToastError (or_else (detail data) "An error occurred")])
    end.
Proof.
  intros H401 Hread. cbv zeta.
  pose proof (not_401_not_renewed error H401) as Hpath.
  destruct (on_rejected_readable error s Hpath Hread) as (shown & Hs & Hsw).
  destruct (on_rejected_readable error s' Hpath Hread) as (shown' & Hs' & Hsw').
  rewrite Hs, Hs'. cbn [fst snd].
  rewrite (emitted_app _ _ _ (emit_toasts_effects shown s)).
  rewrite (emitted_app _ _ _ (emit_toasts_effects shown' s')).
  assert (shown' = shown) as ->.
  { destruct (Error.response error).
    - rewrite Hsw in Hsw'. by injection Hsw'.
    - by rewrite Hsw, Hsw'. }
  clear Hread Hs Hs' Hsw'.
  do 3 (split; [done|]).
  destruct (Error.response error) as [response|]; [|by rewrite Hsw].
  cbv zeta. clear H401 Hpath.
  set (status := Response.status response) in *.
  set (data := Response.data response) in *.
  clearbody status data.
  split.
  { intros ->. destruct data as [|m d]; [done|].
    simpl in Hsw. by injection Hsw as <-. }
  split; [intros ->; simpl in Hsw; by injection Hsw as <-|].
  split; [intros ->; simpl in Hsw; by injection Hsw as <-|].
  split.
  { intros ->. destruct data as [|m d]; [done|]. simpl in Hsw. split.
    - intros errs Hd. simpl in Hd. subst d. simpl in Hsw.
      pose proof (validation_toasts_returns errs) as Hall.
      rewrite Hsw in Hall. specialize (Hall eq_refl). simpl in Hall.
      apply Forall2_fmap_r. eapply Forall2_impl; [exact Hall|].
      intros err toast (line & Hline & ->). by exists line.
    - intros text Hd Hne. simpl in Hd. subst d. simpl in Hsw.
      destruct (decide (text = "")); [done|]. by injection Hsw as <-. }
  split; [intros ->; simpl in Hsw; by injection Hsw as <-|].
  split; [intros ->; simpl in Hsw; by injection Hsw as <-|].
  split.
  { intros [-> | [-> | ->]]; simpl in Hsw; by injection Hsw as <-. }
  intros Hst. unfold listed in Hst.
  rewrite status_switch_default in Hsw by (intros ->; set_solver).
  destruct data as [|m d]; [done|]. simpl in Hsw. by injection Hsw as <-.
Qed.


(** ** A 401 on a request that was already retried *)

(** C5, as amended.  A 401 on a descriptor that already carries
    [_retry], with a body that is not [null] or [undefined], starts no
    renewal: the handler shows the generic notification (the server's
    [detail], or 'An error occurred') and rejects with the 401 error it
    was given; the credential store is left as it is and the page is
    not redirected.  The session is torn down (the four storage keys
    removed, redirection to /login, the 'Session expired' notification)
    when the renewal itself fails, and then the caller is rejected with
    the renewal's error. *)
Theorem retried_401_is_surfaced (error : Error.t) (s : State) :
  is_401 error = true →
  _retry (Error.config error) = true →
  Response.data <$> Error.response error ≠ Some NullBody →
  (∃ response,
      Error.response error = Some response
      ∧ on_rejected error s
        = (emit (ToastError (or_else (detail (Response.data response))
                                     "An error occurred")) s,
           Rejected error))
  ∧ localStorage (on_rejected error s).1 = localStorage s
  ∧ refresh_calls (emitted s (on_rejected error s).1) = []
  ∧ (Navigate "/login" ∉ emitted s (on_rejected error s).1)
  ∧ (∀ (refreshError : RefreshError) (s0 : State),
      (refresh_failed refreshError s0).2 = RejectedRefresh refreshError
      ∧ localStorage (refresh_failed refreshError s0).1
        = delete "current_company_id"
            (delete "user"
               (delete "refresh_token"
                  (delete "access_token" (localStorage s0))))
      ∧ emitted s0 (refresh_failed refreshError s0).1
        = [Navigate "/login";
           ToastError (DetailString "Session expired. Please login again.")]).
Proof.
  unfold is_401.
  destruct (Error.response error) as [response|] eqn:Hr; [|done].
  intros H401 Hretry Hbody.
  assert (takes_renewal_path error = false) as Hpath
    by (unfold takes_renewal_path; by rewrite Hr, H401, Hretry).
  rewrite (on_rejected_switch error response s Hr Hpath).
  apply bool_decide_eq_true in H401. rewrite H401. simpl in Hbody.
  split.
  { exists response. split; [done|].
    destruct (Response.data response) as [|m d]; [done|]. done. }
  destruct (Response.data response) as [|m d]; [done|].
  simpl. rewrite emitted_emit. repeat split; try done.
  - intros Hin. apply list_elem_of_singleton in Hin. done.
  - unfold refresh_failed. simpl.
    apply emitted_app. simpl. by rewrite <- app_assoc.
Qed.

(** ** Dispatch *)

Lemma api_spec (c : Config) (s : State) :
  localStorage (api randomUUID c s) = localStorage s
  ∧ defaults (api randomUUID c s) = defaults s
  ∧ isRefreshing (api randomUUID c s) = isRefreshing s
  ∧ pendingRequests (api randomUUID c s) = pendingRequests s
  ∧ awaiting (api randomUUID c s) = awaiting s
  ∧ draws (api randomUUID c s) = S (draws s)
  ∧ effects (api randomUUID c s)
    = effects s
      ++ [Send (outgoing (localStorage s) (defaults s) (randomUUID (draws s)) c)].
Proof. done. Qed.

(** [pendingRequests.forEach(callback => callback())]: the queued
    descriptors are dispatched front to back, each with a trace id of
    its own, all under the same store and defaults. *)
Lemma replay_queue (l : list Config) (s : State) :
  let s' := foldl (λ acc callback, api randomUUID callback acc) s l in
  localStorage s' = localStorage s
  ∧ defaults s' = defaults s
  ∧ isRefreshing s' = isRefreshing s
  ∧ pendingRequests s' = pendingRequests s
  ∧ awaiting s' = awaiting s
  ∧ draws s' = draws s + length l
  ∧ effects s'
    = effects s
      ++ imap (λ i c, Send (outgoing (localStorage s) (defaults s)
                                     (randomUUID (draws s + i)) c)) l.
Proof.
  revert s. induction l as [|c l IH]; intros s; simpl.
  - rewrite app_nil_r. repeat split; try done; lia.
  - destruct (IH (api randomUUID c s)) as (-> & -> & -> & -> & -> & -> & ->).
    simpl. repeat split; try done; try lia.
    rewrite <- app_assoc. simpl. do 2 f_equal.
    + unfold outgoing. by rewrite Nat.add_0_r.
    + apply imap_ext. intros i x _. simpl. by rewrite Nat.add_succ_r.
Qed.

Lemma sends_imap (f : nat → Config → Config) (l : list Config) :
  sends (imap (λ i c, Send (f i c)) l) = imap f l.
Proof.
  revert f. induction l as [|c l IH]; intros f; [done|].
  simpl. f_equal. apply (IH (f ∘ S)).
Qed.

Lemma refresh_calls_imap (f : nat → Config → Config) (l : list Config) :
  refresh_calls (imap (λ i c, Send (f i c)) l) = [].
Proof.
  revert f. induction l as [|c l IH]; intros f; [done|].
  simpl. apply (IH (f ∘ S)).
Qed.

Lemma Forall2_imap (P : Config → Config → Prop)
    (f : nat → Config → Config) (l : list Config) :
  (∀ i c, P (f i c) c) → Forall2 P (imap f l) l.
Proof.
  revert f. induction l as [|c l IH]; intros f Hf; simpl; constructor.
  - apply Hf.
  - apply IH. intros i x. apply Hf.
Qed.

Lemma outgoing_same_request (ls dflt : gmap string string)
    (uuid : string) (c : Config) :
  same_request (outgoing ls dflt uuid c) c.
Proof. done. Qed.

(** What the interceptor does to each of the three headers. *)
Lemma interceptor_authorization (ls : gmap string string)
    (uuid : string) (c : Config) :
  headers (request_interceptor ls uuid c) !! "Authorization"
  = if truthy (ls !! "access_token")
    then bearer <$> ls !! "access_token"
    else headers c !! "Authorization".
Proof.
  unfold request_interceptor. simpl.
  rewrite lookup_insert_ne; [|done].
  destruct (truthy (ls !! "current_company_id"));
    [rewrite lookup_insert_ne; [|done]|].
  all: destruct (truthy (ls !! "access_token")) eqn:Ht; [|done].
  all: rewrite lookup_insert_eq.
  all: by destruct (ls !! "access_token").
Qed.

Lemma interceptor_company (ls : gmap string string)
    (uuid : string) (c : Config) :
  headers (request_interceptor ls uuid c) !! "X-Company-Id"
  = if truthy (ls !! "current_company_id")
    then ls !! "current_company_id"
    else headers c !! "X-Company-Id".
Proof.
  unfold request_interceptor. simpl.
  rewrite lookup_insert_ne; [|done].
  destruct (truthy (ls !! "current_company_id")) eqn:Hc.
  - rewrite lookup_insert_eq. by destruct (ls !! "current_company_id").
  - destruct (truthy (ls !! "access_token")); [|done].
    by rewrite lookup_insert_ne.
Qed.

Lemma interceptor_request_id (ls : gmap string string)
    (uuid : string) (c : Config) :
  headers (request_interceptor ls uuid c) !! "X-Request-ID" = Some uuid.
Proof. unfold request_interceptor. simpl. apply lookup_insert_eq. Qed.

Lemma interceptor_other_headers (ls : gmap string string)
    (uuid : string) (c : Config) (name : string) :
  name ≠ "Authorization" → name ≠ "X-Company-Id" → name ≠ "X-Request-ID" →
  headers (request_interceptor ls uuid c) !! name = headers c !! name.
Proof.
  intros Ha Hc Hr. unfold request_interceptor. simpl.
  rewrite lookup_insert_ne; [|done].
  destruct (truthy (ls !! "current_company_id"));
    [rewrite lookup_insert_ne; [|done]|].
  all: destruct (truthy (ls !! "access_token")); [|done].
  all: by rewrite lookup_insert_ne.
Qed.

(** ** Renewal succeeded *)

Lemma refresh_succeeded_spec
    (access_token refresh_token : string) (originalRequest : Config)
    (s : State) :
  let s' := (refresh_succeeded randomUUID access_token refresh_token
                               originalRequest s).1 in
  let ls' := <["refresh_token" := refresh_token]>
               (<["access_token" := access_token]> (localStorage s)) in
  let dflt' := <["Authorization" := bearer access_token]> (defaults s) in
  let driver :=
    set_headers (<["Authorization" := bearer access_token]>
                   (headers originalRequest)) originalRequest in
  (refresh_succeeded randomUUID access_token refresh_token originalRequest s).2
  = Replayed driver
  ∧ localStorage s' = ls'
  ∧ defaults s' = dflt'
  ∧ isRefreshing s' = false
  ∧ pendingRequests s' = []
  ∧ awaiting s' = awaiting s
  ∧ draws s' = draws s + S (length (pendingRequests s))
  ∧ effects s'
    = effects s
      ++ imap (λ i c, Send (outgoing ls' dflt' (randomUUID (draws s + i)) c))
              (pendingRequests s ++ [driver]).
Proof.
  unfold refresh_succeeded. simpl.
  set (s3 := set_defaults _ (set_localStorage _ (set_localStorage _ s))).
  pose proof (replay_queue (pendingRequests s) s3) as H. simpl in H.
  destruct H as (-> & -> & _ & _ & -> & -> & ->).
  repeat split; try done; try lia.
  rewrite imap_app, app_assoc. simpl. by rewrite Nat.add_0_r.
Qed.

Lemma stored_access_token (ls : gmap string string) (a r : string) :
  <["refresh_token" := r]> (<["access_token" := a]> ls) !! "access_token"
  = Some a.
Proof. rewrite lookup_insert_ne; [|done]. apply lookup_insert_eq. Qed.

Lemma truthy_Some (v : string) : v ≠ "" → truthy (Some v) = true.
Proof. intros H. unfold truthy. by destruct (decide (v = "")). Qed.

(** The handler suspended at the [await] resumes with the tokens of
    the renewal answer. *)
Lemma step_refresh_resolved
    (access_token refresh_token : string) (driver : Config) (s : State) :
  awaiting s = Some driver →
  let s' := (step randomUUID (RefreshResolved access_token refresh_token) s).1 in
  let ls' := <["refresh_token" := refresh_token]>
               (<["access_token" := access_token]> (localStorage s)) in
  let dflt' := <["Authorization" := bearer access_token]> (defaults s) in
  localStorage s' = ls'
  ∧ effects s'
    = effects s
      ++ imap (λ i c, Send (outgoing ls' dflt' (randomUUID (draws s + i)) c))
              (pendingRequests s
               ++ [set_headers (<["Authorization" := bearer access_token]>
                                  (headers driver)) driver])
  ∧ Forall2 same_request (sends (emitted s s')) (pendingRequests s ++ [driver])
  ∧ refresh_calls (emitted s s') = []
  ∧ pendingRequests s' = []
  ∧ isRefreshing s' = false
  ∧ awaiting s' = None
  ∧ draws s' = draws s + S (length (pendingRequests s)).
Proof.
  intros Hd. unfold step. rewrite Hd.
  pose proof (refresh_succeeded_spec access_token refresh_token driver
                (set_awaiting None s)) as H.
  destruct (refresh_succeeded randomUUID access_token refresh_token driver
              (set_awaiting None s)) as [s' r].
  simpl in H. destruct H as (_ & Hls & _ & Hr & Hp & Haw & Hdr & Heff).
  simpl. rewrite (emitted_app s s' _ Heff), sends_imap, refresh_calls_imap.
  repeat split; try done.
  rewrite imap_app. apply Forall2_app.
  - apply Forall2_imap. intros i c. apply outgoing_same_request.
  - by repeat constructor.
Qed.

(** C4, as amended.  When the renewal call answers with a non-empty
    access token and a refresh token, the continuation stores both
    under their keys before anything is dispatched and before any
    other handler runs (the store then holds exactly the new pair next
    to its other keys); it then replays the queued requests in the
    order they were enqueued and, after them, the request of the
    driver.  Each replay is the descriptor that failed, headers apart,
    and carries the new access token as its bearer credential.  The
    queue is empty afterwards and [isRefreshing] is false. *)
Theorem renewal_success_replays
    (access_token refresh_token : string) (driver : Config) (s : State) :
  awaiting s = Some driver →
  access_token ≠ "" →
  let s' := (step randomUUID (RefreshResolved access_token refresh_token) s).1 in
  localStorage s'
  = <["refresh_token" := refresh_token]>
      (<["access_token" := access_token]> (localStorage s))
  ∧ localStorage s' !! "access_token" = Some access_token
  ∧ localStorage s' !! "refresh_token" = Some refresh_token
  ∧ Forall2 same_request (sends (emitted s s')) (pendingRequests s ++ [driver])
  ∧ Forall (λ sent, headers sent !! "Authorization" = Some (bearer access_token))
           (sends (emitted s s'))
  ∧ refresh_calls (emitted s s') = []
  ∧ pendingRequests s' = []
  ∧ isRefreshing s' = false
  ∧ awaiting s' = None.
Proof.
  intros Hd Ha.
  pose proof (step_refresh_resolved access_token refresh_token driver s Hd) as H.
  cbv zeta in H |- *.
  destruct H as (Hls & Heff & Hsame & Hcalls & Hp & Hr & Haw & _).
  rewrite Hls.
  split; [done|]. split; [apply stored_access_token|].
  split; [apply lookup_insert_eq|].
  split; [done|]. split; [|done].
  rewrite (emitted_app _ _ _ Heff), sends_imap.
  apply Forall_forall. intros sent Hin.
  apply elem_of_lookup_imap in Hin as (i & c & -> & _).
  unfold outgoing. rewrite interceptor_authorization.
  rewrite stored_access_token. by rewrite truthy_Some.
Qed.

(** ** Single flight *)

(** The first expiry seen while no renewal is under way makes its
    handler the driver: it marks the descriptor, raises the flag, posts
    the stored refresh token and suspends. *)
Lemma on_rejected_driver (error : Error.t) (s : State) (rt : string) :
  takes_renewal_path error = true →
  isRefreshing s = false →
  localStorage s !! "refresh_token" = Some rt →
  rt ≠ "" →
  on_rejected error s
  = (set_awaiting (Some (set_retry true (Error.config error)))
       (emit (PostRefresh rt) (set_isRefreshing true s)),
     Suspended).
Proof.
  unfold takes_renewal_path, on_rejected.
  destruct (Error.response error) as [response|]; [|done].
  intros -> -> Hrt Hne. simpl. rewrite Hrt. by rewrite truthy_Some.
Qed.

(** An expiry seen while a renewal is under way only joins the queue. *)
Lemma on_rejected_waiter (error : Error.t) (s : State) :
  takes_renewal_path error = true →
  isRefreshing s = true →
  on_rejected error s
  = (set_pendingRequests (pendingRequests s ++ [Error.config error]) s,
     Queued).
Proof.
  unfold takes_renewal_path, on_rejected.
  destruct (Error.response error) as [response|]; [|done].
  by intros -> ->.
Qed.

Lemma run_failure (error : Error.t) (rest : list Event) (s : State) :
  run randomUUID (Failure error :: rest) s
  = ((run randomUUID rest (on_rejected error s).1).1,
     Some (on_rejected error s).2
     :: (run randomUUID rest (on_rejected error s).1).2).
Proof.
  simpl. destruct (on_rejected error s) as [s1 r]. simpl.
  by destruct (run randomUUID rest s1).
Qed.

Lemma run_waiters (rest : list Error.t) (s : State) :
  isRefreshing s = true →
  Forall (λ e, takes_renewal_path e = true) rest →
  run randomUUID (Failure <$> rest) s
  = (set_pendingRequests (pendingRequests s ++ (Error.config <$> rest)) s,
     replicate (length rest) (Some Queued)).
Proof.
  revert s. induction rest as [|e rest IH]; intros s Hr Hall.
  - simpl. rewrite app_nil_r. by destruct s.
  - apply Forall_cons in Hall as [He Hall].
    rewrite fmap_cons, run_failure, (on_rejected_waiter e s He Hr).
    cbn [fst snd]. rewrite IH; [|done|done]. simpl.
    unfold set_pendingRequests. simpl. by rewrite <- app_assoc.
Qed.

Lemma refresh_calls_app (l1 l2 : list Effect) :
  refresh_calls (l1 ++ l2) = refresh_calls l1 ++ refresh_calls l2.
Proof. apply omap_app. Qed.

Lemma emitted_trans (s s1 s2 : State) (l1 l2 : list Effect) :
  effects s1 = effects s ++ l1 → effects s2 = effects s1 ++ l2 →
  emitted s s2 = l1 ++ l2.
Proof.
  intros H1 H2. apply emitted_app. by rewrite H2, H1, app_assoc.
Qed.

(** C1, as amended.  Let no renewal be under way and a non-empty
    refresh token be stored.  When the 401 answers of any number of
    not yet retried requests are handled before the renewal call
    settles, exactly one renewal call is issued, carrying the stored
    refresh token: the handler of the first answer becomes the driver
    and suspends, and every later one is enqueued, in arrival order,
    and issues no renewal call.  When the renewal then succeeds, every
    one of the requests is replayed (the queue front to back, then the
    driver's), still with that single renewal call, and the queue is
    empty again. *)
Theorem single_flight
    (first : Error.t) (rest : list Error.t) (s : State) (rt : string) :
  isRefreshing s = false →
  localStorage s !! "refresh_token" = Some rt →
  rt ≠ "" →
  takes_renewal_path first = true →
  Forall (λ e, takes_renewal_path e = true) rest →
  let s1 := (run randomUUID (Failure <$> first :: rest) s).1 in
  (run randomUUID (Failure <$> first :: rest) s).2
  = Some Suspended :: replicate (length rest) (Some Queued)
  ∧ emitted s s1 = [PostRefresh rt]
  ∧ refresh_calls (emitted s s1) = [rt]
  ∧ pendingRequests s1 = pendingRequests s ++ (Error.config <$> rest)
  ∧ awaiting s1 = Some (set_retry true (Error.config first))
  ∧ isRefreshing s1 = true
  ∧ (∀ access_token refresh_token : string,
       let s2 := (step randomUUID (RefreshResolved access_token refresh_token) s1).1 in
       Forall2 same_request (sends (emitted s1 s2))
         (pendingRequests s ++ (Error.config <$> rest)
          ++ [set_retry true (Error.config first)])
       ∧ refresh_calls (emitted s s2) = [rt]
       ∧ pendingRequests s2 = []
       ∧ isRefreshing s2 = false).
Proof.
  intros Hidle Hrt Hne Hfirst Hrest.
  rewrite fmap_cons, run_failure.
  rewrite (on_rejected_driver first s rt Hfirst Hidle Hrt Hne).
  cbn [fst snd]. rewrite run_waiters; [|done|done]. cbn [fst snd].
  set (s1 := set_pendingRequests _ _).
  assert (effects s1 = effects s ++ [PostRefresh rt]) as Heff1 by done.
  rewrite (emitted_app _ _ _ Heff1).
  do 6 (split; [done|]).
  intros access_token refresh_token.
  pose proof (step_refresh_resolved access_token refresh_token
                (set_retry true (Error.config first)) s1 eq_refl) as H.
  cbv zeta in H |- *.
  destruct H as (_ & Heff & Hsame & _ & Hp & Hr & _ & _).
  split; [|split; [|done]].
  - rewrite app_assoc. exact Hsame.
  - rewrite (emitted_trans s s1 _ _ _ Heff1 Heff).
    by rewrite refresh_calls_app, refresh_calls_imap.
Qed.

(** ** No refresh token, no renewal *)

(** What the error handler may do to the log and the trace-id
    counter before it returns or suspends. *)
Lemma on_rejected_log (error : Error.t) (s : State) :
  ∃ l, effects (on_rejected error s).1 = effects s ++ l
       ∧ sends l = []
       ∧ draws (on_rejected error s).1 = draws s.
Proof.
  unfold on_rejected.
  destruct (Error.response error) as [response|]; [|by eexists].
  destruct (bool_decide _ && negb _).
  - destruct (isRefreshing s); [exists []; by rewrite app_nil_r|].
    destruct (negb _).
    + eexists. unfold refresh_failed. simpl.
      rewrite <- app_assoc. done.
    + by eexists.
  - destruct (status_switch _ _) as [shown outcome].
    eexists. simpl. rewrite emit_toasts_effects.
    split; [done|]. split; [apply sends_of_errors|].
    apply emit_toasts_frame.
Qed.

Lemma refresh_failed_unauthenticated (e : RefreshError) (s : State) :
  awaiting s = None →
  Unauthenticated (refresh_failed e s).1
  ∧ localStorage (refresh_failed e s).1 !! "access_token" = None
  ∧ localStorage (refresh_failed e s).1 !! "refresh_token" = None
  ∧ localStorage (refresh_failed e s).1 !! "current_company_id" = None
  ∧ effects (refresh_failed e s).1
    = effects s
      ++ [Navigate "/login";
          ToastError (DetailString "Session expired. Please login again.")].
Proof.
  intros Haw. unfold Unauthenticated, refresh_failed. simpl.
  rewrite lookup_delete_eq.
  rewrite !(lookup_delete_ne _ "current_company_id"); [|done..].
  rewrite !(lookup_delete_ne _ "user"); [|done..].
  rewrite lookup_delete_eq.
  rewrite (lookup_delete_ne _ "refresh_token"); [|done].
  rewrite lookup_delete_eq.
  rewrite <- app_assoc. done.
Qed.

Lemma step_unauthenticated (ev : Event) (s : State) :
  Unauthenticated s →
  Unauthenticated (step randomUUID ev s).1
  ∧ (∃ l, effects (step randomUUID ev s).1 = effects s ++ l
          ∧ refresh_calls l = [])
  ∧ fails_at_once ev (step randomUUID ev s).2.
Proof.
  intros (Htoken & Hidle & Haw).
  destruct ev as [c|response|error|a r|status]; simpl.
  - split; [done|]. split; [by eexists|done].
  - unfold on_fulfilled. simpl.
    destruct (truthy _ && negb _); (split; [done|]);
      (split; [|done]); [by eexists | exists []; by rewrite app_nil_r].
  - unfold on_rejected, is_401.
    destruct (Error.response error) as [response|];
      [|split; [done|]; split; [by eexists|done]].
    destruct (bool_decide (Response.status response = 401%Z)) eqn:H401;
      destruct (_retry (Error.config error)) eqn:Hretry; simpl.
    2: {
      rewrite Hidle. simpl. rewrite Htoken. simpl.
      destruct (refresh_failed_unauthenticated NoRefreshToken
                  (set_isRefreshing true s) Haw) as (Hu & _).
      split; [exact Hu|]. split; [|by right; left].
      eexists. rewrite <- app_assoc. done. }
    all: destruct (status_switch _ _) as [shown outcome]; simpl.
    all: destruct (emit_toasts_frame shown s) as (Hls & _ & Hir & _ & Ha & _).
    all: unfold Unauthenticated; rewrite Hls, Hir, Ha.
    all: split; [done|]; split; [|by (destruct outcome; auto)].
    all: eexists; split; [apply emit_toasts_effects|].
    all: apply refresh_calls_of_errors.
  - rewrite Haw. simpl. split; [done|]. split; [|done].
    exists []. by rewrite app_nil_r.
  - rewrite Haw. simpl. split; [done|]. split; [|done].
    exists []. by rewrite app_nil_r.
Qed.

Lemma run_cons (ev : Event) (rest : list Event) (s : State) :
  run randomUUID (ev :: rest) s
  = ((run randomUUID rest (step randomUUID ev s).1).1,
     (step randomUUID ev s).2
     :: (run randomUUID rest (step randomUUID ev s).1).2).
Proof.
  simpl. destruct (step randomUUID ev s) as [s1 r]. simpl.
  by destruct (run randomUUID rest s1).
Qed.

Lemma run_unauthenticated (events : list Event) (s : State) :
  Unauthenticated s →
  Unauthenticated (run randomUUID events s).1
  ∧ (∃ l, effects (run randomUUID events s).1 = effects s ++ l
          ∧ refresh_calls l = [])
  ∧ Forall2 fails_at_once events (run randomUUID events s).2.
Proof.
  revert s. induction events as [|ev rest IH]; intros s Hs.
  - simpl. split; [done|]. split; [|constructor].
    exists []. by rewrite app_nil_r.
  - rewrite run_cons. cbn [fst snd].
    destruct (step_unauthenticated ev s Hs) as (Hs1 & (l1 & He1 & Hc1) & Hf).
    destruct (IH _ Hs1) as (Hs2 & (l2 & He2 & Hc2) & Hfs).
    split; [done|]. split; [|by constructor].
    exists (l1 ++ l2). rewrite He2, He1, app_assoc.
    by rewrite refresh_calls_app, Hc1, Hc2.
Qed.

(** C7.  When the renewal call fails, the continuation removes the
    stored tokens and lowers [isRefreshing]; from then on, whatever
    calls and answers follow, no renewal call is issued, and every 401
    answer is failed at once: its handler returns a rejection without
    suspending or queueing.  (The module has no event that stores a
    refresh token again; a new login does that from outside.) *)
Theorem unauthenticated_fails_fast
    (driver : Config) (status : option Z) (events : list Event) (s : State) :
  awaiting s = Some driver →
  let s1 := (step randomUUID (RefreshFailed status) s).1 in
  let s2 := (run randomUUID events s1).1 in
  Unauthenticated s1
  ∧ localStorage s1 !! "access_token" = None
  ∧ localStorage s1 !! "refresh_token" = None
  ∧ refresh_calls (emitted s1 s2) = []
  ∧ Forall2 fails_at_once events (run randomUUID events s1).2
  ∧ Unauthenticated s2.
Proof.
  intros Hd. cbv zeta. unfold step. rewrite Hd.
  pose proof (refresh_failed_unauthenticated (RefreshRejected status)
                (set_awaiting None s) eq_refl) as H.
  destruct (refresh_failed (RefreshRejected status) (set_awaiting None s))
    as [s1 r]. cbn [fst snd] in *.
  destruct H as (Hs1 & Ha & Hr & _ & _).
  destruct (run_unauthenticated events s1 Hs1) as (Hs2 & (l & He & Hc) & Hf).
  rewrite (emitted_app _ _ _ He).
  done.
Qed.

(** ** Trace ids *)

Lemma request_ids_imap (ls dflt : gmap string string) (k : nat)
    (l : list Config) :
  request_ids (imap (λ i c, outgoing ls dflt (randomUUID (k + i)) c) l)
  = (λ n, Some (randomUUID n)) <$> seq k (length l).
Proof.
  revert k. induction l as [|c l IH]; intros k; [done|].
  unfold request_ids in *. rewrite imap_cons, fmap_cons. simpl length.
  rewrite <- cons_seq, fmap_cons. f_equal.
  - unfold outgoing. rewrite interceptor_request_id. by rewrite Nat.add_0_r.
  - rewrite <- IH. f_equal.
    apply imap_ext. intros i x _. simpl. by rewrite Nat.add_succ_r.
Qed.

Lemma sends_app (l1 l2 : list Effect) : sends (l1 ++ l2) = sends l1 ++ sends l2.
Proof. apply omap_app. Qed.

Lemma ids_in_order_dispatch (s s' : State) (ls dflt : gmap string string)
    (l : list Config) :
  ids_in_order randomUUID s →
  effects s'
  = effects s ++ imap (λ i c, Send (outgoing ls dflt (randomUUID (draws s + i)) c)) l →
  draws s' = draws s + length l →
  ids_in_order randomUUID s'.
Proof.
  unfold ids_in_order. intros Hs -> ->.
  rewrite sends_app, sends_imap. unfold request_ids in *.
  rewrite fmap_app, Hs, seq_app, fmap_app. f_equal.
  apply request_ids_imap.
Qed.

Lemma ids_in_order_quiet (s s' : State) (l : list Effect) :
  ids_in_order randomUUID s →
  effects s' = effects s ++ l → sends l = [] → draws s' = draws s →
  ids_in_order randomUUID s'.
Proof.
  unfold ids_in_order. intros Hs -> Hl ->.
  by rewrite sends_app, Hl, app_nil_r.
Qed.

Lemma step_ids_in_order (ev : Event) (s : State) :
  ids_in_order randomUUID s → ids_in_order randomUUID (step randomUUID ev s).1.
Proof.
  intros Hs. destruct ev as [c|response|error|a r|status].
  - simpl.
    apply (ids_in_order_dispatch s _ (localStorage s) (defaults s) [c] Hs).
    + simpl. by rewrite Nat.add_0_r.
    + simpl. lia.
  - unfold step, on_fulfilled. simpl.
    destruct (truthy _ && negb _); [|done].
    by eapply (ids_in_order_quiet s _ _ Hs); [reflexivity|..].
  - simpl. destruct (on_rejected_log error s) as (l & He & Hl & Hd).
    destruct (on_rejected error s) as [s' r].
    by apply (ids_in_order_quiet s s' l Hs).
  - destruct (awaiting s) as [driver|] eqn:Hd.
    + pose proof (step_refresh_resolved a r driver s Hd) as H.
      cbv zeta in H.
      destruct H as (_ & Heff & _ & _ & _ & _ & _ & Hdr).
      apply (ids_in_order_dispatch s _ _ _ _ Hs Heff).
      rewrite Hdr, length_app. simpl. lia.
    + unfold step. by rewrite Hd.
  - simpl. destruct (awaiting s) as [driver|] eqn:Hd; [|done].
    simpl. apply (ids_in_order_quiet s _
                    [Navigate "/login";
                     ToastError (DetailString "Session expired. Please login again.")]
                    Hs); try done.
    simpl. by rewrite <- app_assoc.
Qed.

Lemma run_ids_in_order (events : list Event) (s : State) :
  ids_in_order randomUUID s → ids_in_order randomUUID (run randomUUID events s).1.
Proof.
  revert s. induction events as [|ev rest IH]; intros s Hs; [done|].
  rewrite run_cons. cbn [fst]. apply IH. by apply step_ids_in_order.
Qed.

(** A header the interceptor writes from the store is missing from the
    outgoing descriptor only when the store, the call and the defaults
    all lack it. *)
Lemma header_absent (v w : option string) (h d : gmap string string)
    (name : string) :
  (truthy v = true → is_Some w) →
  (if truthy v then w else (h ∪ d) !! name) = None
  ↔ truthy v = false ∧ h !! name = None ∧ d !! name = None.
Proof.
  intros Hw. destruct (truthy v).
  - destruct (Hw eq_refl) as [x ->]. split; [done|]. by intros [? _].
  - rewrite lookup_union_None. split; [done|]. by intros [_ ?].
Qed.


End Properties.

(** * The properties on concrete runs *)

Lemma uuid_of_inj (i j : nat) : uuid_of i = uuid_of j → i = j.
Proof. unfold uuid_of. intros H. by simplify_eq/=. Qed.

(** The three calls go out with the stored token and scope id. *)
Example in_flight_sends :
  sends (effects in_flight)
  = [sent_as 0 (get "/a"); sent_as 1 (get "/b"); sent_as 2 (get "/c")]
  ∧ (λ c, headers c !! "Authorization") <$> sends (effects in_flight)
    = [Some "Bearer A1"; Some "Bearer A1"; Some "Bearer A1"].
Proof. cbv zeta. repeat split; reflexivity. Qed.

(** ** C1 *)

(** C1 fails as stated.  With no refresh token stored, two requests that
    each get a 401 cause no renewal call at all: each handler stops at
    the guard before the call.  And with a refresh token stored, a 401
    that is handled only after the renewal has settled starts a renewal
    of its own: three requests, two renewal calls. *)
Lemma single_flight_counterexample :
  let s := initial {[ "access_token" := "A1" ]} in
  let late := [Failure (expired (sent_as 0 (get "/a")));
               Failure (expired (sent_as 1 (get "/b")));
               RefreshResolved "A2" "R2";
               Failure (expired (sent_as 2 (get "/c")))] in
  refresh_calls
    (effects (run uuid_of [Failure (expired (get "/a"));
                           Failure (expired (get "/b"))] s).1) = []
  ∧ (run uuid_of [Failure (expired (get "/a"));
                  Failure (expired (get "/b"))] s).2
    = [Some (RejectedRefresh NoRefreshToken);
       Some (RejectedRefresh NoRefreshToken)]
  ∧ refresh_calls (effects (run uuid_of late in_flight).1) = ["R1"; "R2"].
Proof. cbv zeta. repeat split; reflexivity. Qed.

Lemma single_flight_witness :
  isRefreshing in_flight = false
  ∧ localStorage in_flight !! "refresh_token" = Some "R1"
  ∧ "R1" ≠ ""
  ∧ takes_renewal_path (expired (sent_as 0 (get "/a"))) = true
  ∧ Forall (λ e, takes_renewal_path e = true)
           [expired (sent_as 1 (get "/b")); expired (sent_as 2 (get "/c"))]
  ∧ (run uuid_of three_expired in_flight).2
    = [Some Suspended; Some Queued; Some Queued]
  ∧ refresh_calls (emitted in_flight renewing) = ["R1"]
  ∧ pendingRequests renewing = [sent_as 1 (get "/b"); sent_as 2 (get "/c")]
  ∧ refresh_calls
      (emitted in_flight (step uuid_of (RefreshResolved "A2" "R2") renewing).1)
    = ["R1"].
Proof.
  assert (isRefreshing in_flight = false) as H1 by reflexivity.
  assert (localStorage in_flight !! "refresh_token" = Some "R1") as H2
    by reflexivity.
  assert ("R1" ≠ "") as H3 by discriminate.
  assert (takes_renewal_path (expired (sent_as 0 (get "/a"))) = true) as H4
    by reflexivity.
  assert (Forall (λ e, takes_renewal_path e = true)
            [expired (sent_as 1 (get "/b")); expired (sent_as 2 (get "/c"))])
    as H5 by (repeat constructor).
  destruct (single_flight uuid_of (expired (sent_as 0 (get "/a")))
              [expired (sent_as 1 (get "/b")); expired (sent_as 2 (get "/c"))]
              in_flight "R1" H1 H2 H3 H4 H5)
    as (Hres & _ & Hcalls & Hqueue & _ & _ & Hthen).
  destruct (Hthen "A2" "R2") as (_ & Hone & _).
  repeat split; assumption.
Defined.

(** ** C2 *)

(** C2 on the code.  Three requests get a 401; the first drives the
    renewal and the other two are queued.  The renewal call is refused
    with 400.  The driver is rejected and the credential store is
    emptied, but the two queued requests are still in [pendingRequests]:
    their promises were neither resolved nor rejected. *)
Theorem failed_renewal_leaves_waiters :
  let s := (step uuid_of (RefreshFailed (Some 400%Z)) renewing).1 in
  (run uuid_of three_expired in_flight).2
  = [Some Suspended; Some Queued; Some Queued]
  ∧ (step uuid_of (RefreshFailed (Some 400%Z)) renewing).2
    = Some (RejectedRefresh (RefreshRejected (Some 400%Z)))
  ∧ pendingRequests s = [sent_as 1 (get "/b"); sent_as 2 (get "/c")]
  ∧ isRefreshing s = false
  ∧ awaiting s = None
  ∧ localStorage s = ∅.
Proof. cbv zeta. repeat split; reflexivity. Qed.

(** The failure path never touches the queue, whatever it holds. *)
Lemma refresh_failed_keeps_queue (e : RefreshError) (s : State) :
  pendingRequests (refresh_failed e s).1 = pendingRequests s.
Proof. done. Qed.

(** ** C3 *)

(** C3 on the code.  The replay of the driver carries [_retry]; the
    replays of the queued requests do not.  When the replay of a queued
    request gets a 401 again, its handler starts a second renewal with
    the new refresh token, and the request is replayed a second time
    when that renewal succeeds.  A 401 on the replay of the driver is
    rejected without a renewal. *)
Theorem queued_replay_is_renewed_again :
  let renewed := (step uuid_of (RefreshResolved "A2" "R2") renewing).1 in
  let replay_b := outgoing (stored "A2" "R2") (defaults renewed) (uuid_of 3)
                           (sent_as 1 (get "/b")) in
  let replay_a := outgoing (stored "A2" "R2") (defaults renewed) (uuid_of 5)
                           (set_retry true (sent_as 0 (get "/a"))) in
  let again := (run uuid_of [Failure (expired replay_b);
                             RefreshResolved "A3" "R3"] renewed) in
  sends (emitted renewing renewed) !! 0 = Some replay_b
  ∧ sends (emitted renewing renewed) !! 2 = Some replay_a
  ∧ _retry replay_b = false
  ∧ _retry replay_a = true
  ∧ (on_rejected (expired replay_b) renewed).2 = Suspended
  ∧ refresh_calls (emitted renewed (on_rejected (expired replay_b) renewed).1)
    = ["R2"]
  ∧ url <$> sends (emitted in_flight again.1) = ["/b"; "/c"; "/a"; "/b"]
  ∧ refresh_calls (emitted in_flight again.1) = ["R1"; "R2"]
  ∧ (on_rejected (expired replay_a) renewed).2 = Rejected (expired replay_a)
  ∧ refresh_calls (emitted renewed (on_rejected (expired replay_a) renewed).1)
    = [].
Proof. cbv zeta. repeat split; reflexivity. Qed.

(** ** C4 *)

(** C4 fails as stated.  The driver saw its 401 first, yet its request
    is replayed last, after the queue.  And when the renewal answers
    with an empty access token, the interceptor does not overwrite the
    header: the queued replays go out with the expired token. *)
Lemma renewal_success_counterexample :
  url <$> (Error.config <$> [expired (sent_as 0 (get "/a"));
                             expired (sent_as 1 (get "/b"));
                             expired (sent_as 2 (get "/c"))])
  = ["/a"; "/b"; "/c"]
  ∧ url <$> sends (emitted renewing
              (step uuid_of (RefreshResolved "A2" "R2") renewing).1)
    = ["/b"; "/c"; "/a"]
  ∧ (λ c, headers c !! "Authorization")
      <$> sends (emitted renewing
            (step uuid_of (RefreshResolved "" "R2") renewing).1)
    = [Some "Bearer A1"; Some "Bearer A1"; Some "Bearer "].
Proof. cbv zeta. repeat split; reflexivity. Qed.

(** The scenario of the specification: A1/R1 expires for three
    requests, the renewal returns A2/R2. *)
Lemma renewal_success_witness :
  awaiting renewing = Some (set_retry true (sent_as 0 (get "/a")))
  ∧ "A2" ≠ ""
  ∧ localStorage (step uuid_of (RefreshResolved "A2" "R2") renewing).1
    = stored "A2" "R2"
  ∧ Forall (λ sent, headers sent !! "Authorization" = Some (bearer "A2"))
      (sends (emitted renewing
                (step uuid_of (RefreshResolved "A2" "R2") renewing).1))
  ∧ Forall2 same_request
      (sends (emitted renewing
                (step uuid_of (RefreshResolved "A2" "R2") renewing).1))
      [sent_as 1 (get "/b"); sent_as 2 (get "/c");
       set_retry true (sent_as 0 (get "/a"))]
  ∧ pendingRequests (step uuid_of (RefreshResolved "A2" "R2") renewing).1 = [].
Proof.
  assert (awaiting renewing = Some (set_retry true (sent_as 0 (get "/a"))))
    as H1 by reflexivity.
  assert ("A2" ≠ "") as H2 by discriminate.
  destruct (renewal_success_replays uuid_of "A2" "R2"
              (set_retry true (sent_as 0 (get "/a"))) renewing H1 H2)
    as (Hstore & _ & _ & Hsame & Hauth & _ & Hqueue & _).
  split; [assumption|]. split; [assumption|].
  split; [rewrite Hstore; reflexivity|].
  split; [assumption|]. split; assumption.
Defined.

(** ** C5 *)

(** C5 fails as stated.  A 401 on a request that already carries
    [_retry] is rejected with the 401 error as it came; the tokens stay
    in the store and there is no redirection.  When the body of that
    401 is [null], the handler throws at [data.detail]: the caller gets
    the TypeError, nothing is shown, and again nothing is torn down. *)
Lemma retried_401_counterexample :
  let error := expired (set_retry true (get "/a")) in
  (on_rejected error session).2 = Rejected error
  ∧ localStorage (on_rejected error session).1 = stored "A1" "R1"
  ∧ emitted session (on_rejected error session).1
    = [ToastError (DetailString "An error occurred")]
  ∧ on_rejected (failed 401 NullBody (set_retry true (get "/a"))) session
    = (session, RejectedTypeError).
Proof. cbv zeta. repeat split; reflexivity. Qed.

Lemma retried_401_witness :
  is_401 (expired (set_retry true (get "/a"))) = true
  ∧ _retry (Error.config (expired (set_retry true (get "/a")))) = true
  ∧ Response.data <$> Error.response (expired (set_retry true (get "/a")))
    ≠ Some NullBody
  ∧ on_rejected (expired (set_retry true (get "/a"))) session
    = (emit (ToastError (DetailString "An error occurred")) session,
       Rejected (expired (set_retry true (get "/a"))))
  ∧ localStorage (on_rejected (expired (set_retry true (get "/a"))) session).1
    = localStorage session
  ∧ refresh_calls
      (emitted session
         (on_rejected (expired (set_retry true (get "/a"))) session).1) = [].
Proof.
  assert (is_401 (expired (set_retry true (get "/a"))) = true) as H1
    by reflexivity.
  assert (_retry (Error.config (expired (set_retry true (get "/a")))) = true)
    as H2 by reflexivity.
  assert (Response.data <$> Error.response (expired (set_retry true (get "/a")))
          ≠ Some NullBody) as H3 by discriminate.
  destruct (retried_401_is_surfaced (expired (set_retry true (get "/a")))
              session H1 H2 H3) as ((response & Hr & Hres) & Hstore & Hcalls & _).
  injection Hr as <-.
  split; [exact H1|]. split; [exact H2|]. split; [exact H3|].
  split; [exact Hres|]. split; [exact Hstore|exact Hcalls].
Defined.

(** ** C6 *)

(** C6 fails as stated.  The handler is no pure function to a kind:
    it notifies, and what it returns to the caller is the error it was
    given.  It keeps no kind apart: a 403 and a 422 whose detail is
    the same sentence leave the same notification, and so do two
    different lists of field paths.  And it is not total: for a 400
    with a [null] body it throws before anything is shown. *)
Lemma classification_counterexample :
  let entry path := Some {| loc := LocArray path; msg := "is required" |} in
  let forbidden := failed 403 no_body (get "/a") in
  let worded :=
    failed 422
      (Fields None
         (Some (DetailString
                  "You do not have permission to perform this action")))
      (get "/a") in
  let nested :=
    failed 422 (Fields None (Some (DetailArray [entry ["body"; "email"]])))
           (get "/a") in
  let dotted :=
    failed 422 (Fields None (Some (DetailArray [entry ["body.email"]])))
           (get "/a") in
  on_rejected forbidden session
  = (emit (ToastError
             (DetailString "You do not have permission to perform this action"))
          session,
     Rejected forbidden)
  ∧ (on_rejected worded session).1 = (on_rejected forbidden session).1
  ∧ (on_rejected nested session).1 = (on_rejected dotted session).1
  ∧ emitted session (on_rejected nested session).1
    = [ToastError (DetailString "body.email: is required")]
  ∧ on_rejected (failed 400 NullBody (get "/a")) session
    = (session, RejectedTypeError).
Proof. cbv zeta. repeat split; reflexivity. Qed.

Lemma classification_witness :
  is_401 (failed 422 invalid_email (get "/a")) = false
  ∧ readable_error (failed 422 invalid_email (get "/a")) = true
  ∧ (on_rejected (failed 422 invalid_email (get "/a")) session).2
    = Rejected (failed 422 invalid_email (get "/a"))
  ∧ emitted renewing
            (on_rejected (failed 422 invalid_email (get "/a")) renewing).1
    = emitted session
              (on_rejected (failed 422 invalid_email (get "/a")) session).1
  ∧ Forall2 (λ err toast,
               ∃ line, validation_line err = Some line
                       ∧ toast = ToastError (DetailString line))
            [Some {| loc := LocArray ["body"; "email"];
                     msg := "not a valid address" |};
             Some {| loc := LocAbsent; msg := "missing" |}]
            (emitted session
               (on_rejected (failed 422 invalid_email (get "/a")) session).1).
Proof.
  assert (is_401 (failed 422 invalid_email (get "/a")) = false) as H1
    by reflexivity.
  assert (readable_error (failed 422 invalid_email (get "/a")) = true) as H2
    by reflexivity.
  destruct (classification_follows_table
              (failed 422 invalid_email (get "/a")) session renewing H1 H2)
    as (Hres & _ & Hsame & Hrows).
  destruct Hrows as (_ & _ & _ & Hrow & _).
  destruct (Hrow eq_refl) as [Hlist _].
  split; [exact H1|]. split; [exact H2|]. split; [exact Hres|].
  split; [exact Hsame|]. exact (Hlist _ eq_refl).
Defined.

(** ** C7 *)

Lemma unauthenticated_witness :
  awaiting renewing = Some (set_retry true (sent_as 0 (get "/a")))
  ∧ Unauthenticated (step uuid_of (RefreshFailed (Some 400%Z)) renewing).1
  ∧ refresh_calls
      (emitted (step uuid_of (RefreshFailed (Some 400%Z)) renewing).1
         (run uuid_of [Failure (expired (get "/d")); Call (get "/e");
                       Failure (expired (set_retry true (get "/f")))]
              (step uuid_of (RefreshFailed (Some 400%Z)) renewing).1).1)
    = [].
Proof.
  assert (awaiting renewing = Some (set_retry true (sent_as 0 (get "/a"))))
    as H by reflexivity.
  destruct (unauthenticated_fails_fast uuid_of
              (set_retry true (sent_as 0 (get "/a"))) (Some 400%Z)
              [Failure (expired (get "/d")); Call (get "/e");
               Failure (expired (set_retry true (get "/f")))]
              renewing H) as (Hu & _ & _ & Hcalls & _).
  repeat split; try assumption; apply Hu.
Defined.

(** ** C8 *)



(** ** C9 *)


Lemma csv_report_spelled : spelled_as_client (headers csv_report).
Proof.
  intros name name' [value Hname] Hin Hlower. simpl in Hname.
  apply lookup_singleton_Some in Hname as [<- _].
  unfold client_headers in Hin.
  repeat (apply elem_of_cons in Hin as [->|Hin]); try done.
  by apply elem_of_nil in Hin.
Defined.


(** * Further properties of the client *)

Section Coverage.

Variable randomUUID : nat → string.

(** ** The log only grows *)

Lemma step_log (ev : Event) (s : State) :
  ∃ l, effects (step randomUUID ev s).1 = effects s ++ l.
Proof.
  destruct ev as [c|response|error|a r|status].
  - by eexists.
  - simpl. unfold on_fulfilled. simpl.
    destruct (truthy _ && negb _); [by eexists|].
    exists []. by rewrite app_nil_r.
  - simpl. destruct (on_rejected_log error s) as (l & He & _).
    destruct (on_rejected error s) as [s' res]. by exists l.
  - destruct (awaiting s) as [driver|] eqn:Hd.
    + destruct (step_refresh_resolved randomUUID a r driver s Hd) as (_ & He & _).
      by eexists.
    + unfold step. rewrite Hd. exists []. by rewrite app_nil_r.
  - simpl. destruct (awaiting s) as [driver|] eqn:Hd.
    + eexists. simpl. by rewrite <- app_assoc.
    + exists []. by rewrite app_nil_r.
Qed.

Lemma run_log (evs : list Event) (s : State) :
  ∃ l, effects (run randomUUID evs s).1 = effects s ++ l.
Proof.
  revert s. induction evs as [|ev rest IH]; intros s.
  - exists []. by rewrite app_nil_r.
  - rewrite run_cons. cbn [fst].
    destruct (step_log ev s) as (l1 & H1).
    destruct (IH (step randomUUID ev s).1) as (l2 & H2).
    exists (l1 ++ l2). by rewrite H2, H1, app_assoc.
Qed.

Lemma step_failure (error : Error.t) (s : State) :
  step randomUUID (Failure error) s
  = ((on_rejected error s).1, Some (on_rejected error s).2).
Proof. simpl. by destruct (on_rejected error s). Qed.

Lemma step_refresh_failed (status : option Z) (driver : Config) (s : State) :
  awaiting s = Some driver →
  step randomUUID (RefreshFailed status) s
  = ((refresh_failed (RefreshRejected status) (set_awaiting None s)).1,
     Some (RejectedRefresh (RefreshRejected status))).
Proof. intros Hd. simpl. by rewrite Hd. Qed.

Lemma step_not_awaiting (ev : Event) (s : State) :
  is_answer ev = true → awaiting s = None →
  step randomUUID ev s = (s, None).
Proof. intros Hev Hd. destruct ev; try done; simpl; by rewrite Hd. Qed.

(** ** Renewal calls never overlap *)

Lemma flag_idle (s : State) :
  flag_tracks_renewal s → isRefreshing s = false → awaiting s = None.
Proof.
  unfold flag_tracks_renewal. intros -> H.
  destruct (awaiting s); [|done].
  by rewrite bool_decide_eq_false in H; destruct H.
Qed.

Lemma refresh_calls_snoc_send (l : list Effect) (c : Config) :
  refresh_calls (l ++ [Send c]) = refresh_calls l.
Proof. by rewrite refresh_calls_app, app_nil_r. Qed.

Lemma step_calls_bound (ev : Event) (s : State) :
  flag_tracks_renewal s →
  flag_tracks_renewal (step randomUUID ev s).1
  ∧ (length (refresh_calls (effects (step randomUUID ev s).1)) + awaited s
     ≤ length (refresh_calls (effects s)) + answer_count ev
       + awaited (step randomUUID ev s).1)%nat.
Proof.
  intros Hflag. unfold awaited, answer_count.
  destruct ev as [c|response|error|a r|status].
  - simpl. rewrite refresh_calls_snoc_send. split; [done|lia].
  - simpl. unfold on_fulfilled. simpl.
    destruct (truthy _ && negb _); simpl; (split; [done|]).
    + rewrite refresh_calls_app, app_nil_r. lia.
    + lia.
  - rewrite step_failure. cbn [fst]. unfold on_rejected.
    destruct (Error.response error) as [response|]; simpl.
    2: { split; [done|]. rewrite refresh_calls_app, app_nil_r. lia. }
    destruct (bool_decide _ && negb _).
    + destruct (isRefreshing s) eqn:Hr.
      * simpl. split; [|lia].
        unfold flag_tracks_renewal in *. simpl. by rewrite <- Hflag.
      * pose proof (flag_idle s Hflag Hr) as Hnone.
        destruct (negb _); simpl.
        -- unfold flag_tracks_renewal. simpl. rewrite Hnone.
           split; [done|].
           rewrite <- app_assoc, refresh_calls_app, app_nil_r. lia.
        -- unfold flag_tracks_renewal. simpl. rewrite Hnone.
           split; [done|].
           rewrite refresh_calls_app, length_app. simpl. lia.
    + destruct (status_switch _ _) as [shown outcome].
      destruct (emit_toasts_frame shown s) as (_ & _ & Hir & _ & Ha & _).
      simpl. unfold flag_tracks_renewal. rewrite Hir, Ha.
      split; [done|].
      rewrite emit_toasts_effects, refresh_calls_app, refresh_calls_of_errors,
        app_nil_r. lia.
  - destruct (awaiting s) as [driver|] eqn:Hd.
    + destruct (step_refresh_resolved randomUUID a r driver s Hd)
        as (_ & He & _ & _ & _ & Hr & Ha & _).
      unfold flag_tracks_renewal. rewrite Hr, Ha, He.
      split; [done|].
      rewrite refresh_calls_app, refresh_calls_imap, app_nil_r. simpl. lia.
    + rewrite step_not_awaiting by done. simpl. rewrite Hd. split; [done|lia].
  - destruct (awaiting s) as [driver|] eqn:Hd.
    + rewrite (step_refresh_failed status driver s Hd). simpl.
      split; [done|].
      rewrite <- app_assoc, refresh_calls_app, app_nil_r. lia.
    + rewrite step_not_awaiting by done. simpl. rewrite Hd. split; [done|lia].
Qed.

Lemma answers_cons (ev : Event) (rest : list Event) :
  answers (ev :: rest) = answer_count ev + answers rest.
Proof.
  unfold answers, answer_count. rewrite filter_cons.
  destruct (is_answer ev); by case_decide.
Qed.

Lemma run_calls_bound (evs : list Event) (s : State) :
  flag_tracks_renewal s →
  flag_tracks_renewal (run randomUUID evs s).1
  ∧ (length (refresh_calls (effects (run randomUUID evs s).1)) + awaited s
     ≤ length (refresh_calls (effects s)) + answers evs
       + awaited (run randomUUID evs s).1)%nat.
Proof.
  revert s. induction evs as [|ev rest IH]; intros s Hs.
  - simpl. split; [done|]. unfold answers. simpl. lia.
  - rewrite run_cons, answers_cons. cbn [fst].
    destruct (step_calls_bound ev s Hs) as (Hs1 & Hb1).
    destruct (IH _ Hs1) as (Hs2 & Hb2).
    split; [done|]. lia.
Qed.

(** X1.  Renewal calls never overlap.  Whatever calls, answers and
    settlements the client sees from the moment the module is loaded,
    [isRefreshing] is raised exactly while a handler waits for the
    renewal call, and the renewal calls issued so far are at most the
    settlements delivered plus the one still awaited: a new call is
    only ever made once the previous one has settled. *)
Theorem renewals_never_overlap (ls : gmap string string) (evs : list Event) :
  let s := (run randomUUID evs (initial ls)).1 in
  (isRefreshing s = true ↔ is_Some (awaiting s))
  ∧ (length (refresh_calls (effects s)) ≤ answers evs + awaited s)%nat.
Proof.
  cbv zeta.
  assert (flag_tracks_renewal (initial ls)) as H0 by done.
  destruct (run_calls_bound evs (initial ls) H0) as (Hflag & Hbound).
  simpl in Hbound. split; [|lia].
  unfold flag_tracks_renewal in Hflag. rewrite Hflag.
  apply bool_decide_eq_true.
Qed.

(** ** Who writes the credential store *)

Lemma on_rejected_store (error : Error.t) (s : State) :
  localStorage (on_rejected error s).1 = localStorage s
  ∨ localStorage (on_rejected error s).1
    = delete "current_company_id"
        (delete "user"
           (delete "refresh_token" (delete "access_token" (localStorage s)))).
Proof.
  unfold on_rejected.
  destruct (Error.response error) as [response|]; [|by left].
  destruct (bool_decide _ && negb _).
  - destruct (isRefreshing s); [by left|].
    destruct (negb _); [by right|by left].
  - left. destruct (status_switch _ _) as [shown outcome].
    simpl. apply emit_toasts_frame.
Qed.

(** Every event leaves the store as it was, or stores the pair of a
    renewal answer, or removes the four keys. *)
Lemma step_store (ev : Event) (s : State) :
  localStorage (step randomUUID ev s).1 = localStorage s
  ∨ (∃ a r, localStorage (step randomUUID ev s).1
            = <["refresh_token" := r]> (<["access_token" := a]> (localStorage s)))
  ∨ localStorage (step randomUUID ev s).1
    = delete "current_company_id"
        (delete "user"
           (delete "refresh_token" (delete "access_token" (localStorage s)))).
Proof.
  destruct ev as [c|response|error|a r|status].
  - by left.
  - left. simpl. unfold on_fulfilled. simpl. by destruct (truthy _ && negb _).
  - rewrite step_failure. cbn [fst].
    destruct (on_rejected_store error s) as [H|H]; [by left|by right; right].
  - destruct (awaiting s) as [driver|] eqn:Hd.
    + destruct (step_refresh_resolved randomUUID a r driver s Hd) as (H & _).
      right. left. by exists a, r.
    + rewrite step_not_awaiting by done. by left.
  - destruct (awaiting s) as [driver|] eqn:Hd.
    + rewrite (step_refresh_failed status driver s Hd). by right; right.
    + rewrite step_not_awaiting by done. by left.
Qed.

Lemma step_store_discipline (ev : Event) (s : State) (k : string) :
  k ≠ "access_token" → k ≠ "refresh_token" →
  (paired (localStorage s) → paired (localStorage (step randomUUID ev s).1))
  ∧ (localStorage (step randomUUID ev s).1 !! k = localStorage s !! k
     ∨ (localStorage (step randomUUID ev s).1 !! k = None
        ∧ (k = "user" ∨ k = "current_company_id"))).
Proof.
  intros Ha Hr.
  destruct (step_store ev s) as [-> | [(a & r & ->) | ->]].
  - split; [done|by left].
  - split.
    + intros _. unfold paired.
      rewrite lookup_insert_eq, lookup_insert_ne, lookup_insert_eq by done.
      split; by eexists.
    + left. by rewrite !lookup_insert_ne.
  - split.
    + intros _. unfold paired.
      rewrite !(lookup_delete_ne _ "current_company_id") by done.
      rewrite !(lookup_delete_ne _ "user") by done.
      rewrite lookup_delete_eq, lookup_delete_ne, lookup_delete_eq by done.
      done.
    + destruct (decide (k = "current_company_id")) as [->|Hc].
      { right. by rewrite lookup_delete_eq; auto. }
      destruct (decide (k = "user")) as [->|Hu].
      { right. rewrite lookup_delete_ne, lookup_delete_eq by done. auto. }
      left. by rewrite !lookup_delete_ne.
Qed.

(** X2.  Through any run of the client the two tokens stay together:
    a store that holds both or neither still does afterwards.  The
    client never writes any other key: [user] and [current_company_id]
    are as they were or have been removed, and every further key is as
    it was. *)
Theorem store_discipline (evs : list Event) (s : State) (k : string) :
  paired (localStorage s) →
  k ≠ "access_token" → k ≠ "refresh_token" →
  paired (localStorage (run randomUUID evs s).1)
  ∧ (localStorage (run randomUUID evs s).1 !! k = localStorage s !! k
     ∨ (localStorage (run randomUUID evs s).1 !! k = None
        ∧ (k = "user" ∨ k = "current_company_id"))).
Proof.
  intros Hp Ha Hr. revert s Hp.
  induction evs as [|ev rest IH]; intros s Hp.
  - simpl. split; [done|by left].
  - rewrite run_cons. cbn [fst].
    destruct (step_store_discipline ev s k Ha Hr) as (Hp1 & Hk1).
    destruct (IH _ (Hp1 Hp)) as (Hp2 & Hk2).
    split; [done|].
    destruct Hk2 as [-> | Hk2]; [done|by right].
Qed.

(** ** Expiry with no refresh token *)

Lemma on_rejected_no_token (error : Error.t) (s : State) :
  Unauthenticated s →
  takes_renewal_path error = true →
  on_rejected error s = refresh_failed NoRefreshToken (set_isRefreshing true s).
Proof.
  intros (Htoken & Hidle & _). unfold takes_renewal_path, on_rejected.
  destruct (Error.response error) as [response|]; [|done].
  intros ->. rewrite Hidle. simpl. by rewrite Htoken.
Qed.

(** X3.  With no refresh token stored, every not yet retried 401 is
    torn down on its own: k such answers cause k redirections to
    /login and k 'Session expired' notifications, each caller is
    rejected with the 'No refresh token' error, and nothing else is
    logged. *)
Theorem every_expiry_tears_down (errors : list Error.t) (s : State) :
  Unauthenticated s →
  Forall (λ e, takes_renewal_path e = true) errors →
  emitted s (run randomUUID (Failure <$> errors) s).1
  = concat (replicate (length errors) teardown)
  ∧ (run randomUUID (Failure <$> errors) s).2
    = replicate (length errors) (Some (RejectedRefresh NoRefreshToken)).
Proof.
  intros Hs Hall.
  enough (effects (run randomUUID (Failure <$> errors) s).1
          = effects s ++ concat (replicate (length errors) teardown)
          ∧ (run randomUUID (Failure <$> errors) s).2
            = replicate (length errors) (Some (RejectedRefresh NoRefreshToken)))
    as [He Hr] by (split; [by apply emitted_app|done]).
  revert s Hs. induction Hall as [|e rest He Hall IH]; intros s Hs.
  - simpl. by rewrite app_nil_r.
  - rewrite fmap_cons, run_failure, (on_rejected_no_token e s Hs He).
    destruct Hs as (_ & _ & Haw).
    destruct (refresh_failed_unauthenticated NoRefreshToken
                (set_isRefreshing true s) Haw) as (Hs1 & _ & _ & _ & Heff).
    destruct (IH _ Hs1) as (IHe & IHr).
    cbn [fst snd]. rewrite IHe, IHr, Heff. simpl.
    by rewrite <- app_assoc.
Qed.

(** ** The driver's request *)

Lemma last_imap_snoc (f : nat → Config → Config) (l : list Config) (c : Config) :
  last (imap f (l ++ [c])) = Some (f (length l) c).
Proof.
  rewrite imap_app. simpl. rewrite last_snoc. by rewrite Nat.add_0_r.
Qed.

Lemma outgoing_authorization_own (ls dflt : gmap string string)
    (uuid token : string) (c : Config) :
  ls !! "access_token" = Some token →
  headers c !! "Authorization" = Some (bearer token) →
  headers (outgoing ls dflt uuid c) !! "Authorization" = Some (bearer token).
Proof.
  intros Hls Hc. unfold outgoing. rewrite interceptor_authorization, Hls.
  destruct (truthy (Some token)); [done|].
  simpl. by apply lookup_union_Some_l.
Qed.

(** X4.  The request that drives a renewal is replayed at most once.
    When its 401 starts the renewal and the renewal succeeds, the
    driver's request is the last one dispatched by the continuation; it
    is the failed descriptor with [_retry] set and goes out with the
    bearer token of the renewal answer, whatever that token is.  If the
    replay is answered 401 again, in whatever state the client then is,
    the handler rejects with that error (with the TypeError of the
    read, when the body of that answer is [null]), issues no renewal
    call, dispatches nothing and queues nothing. *)
Theorem driver_is_replayed_once
    (error : Error.t) (rt access_token refresh_token : string)
    (body : Body) (s later : State) :
  takes_renewal_path error = true →
  isRefreshing s = false →
  localStorage s !! "refresh_token" = Some rt →
  rt ≠ "" →
  ∃ replay,
    last (sends (emitted (on_rejected error s).1
                   (step randomUUID (RefreshResolved access_token refresh_token)
                         (on_rejected error s).1).1))
    = Some replay
    ∧ same_request replay (set_retry true (Error.config error))
    ∧ _retry replay = true
    ∧ headers replay !! "Authorization" = Some (bearer access_token)
    ∧ (on_rejected (failed 401 body replay) later).2
      = match body with
        | NullBody => RejectedTypeError
        | Fields _ _ => Rejected (failed 401 body replay)
        end
    ∧ refresh_calls (emitted later (on_rejected (failed 401 body replay) later).1)
      = []
    ∧ sends (emitted later (on_rejected (failed 401 body replay) later).1) = []
    ∧ pendingRequests (on_rejected (failed 401 body replay) later).1
      = pendingRequests later.
Proof.
  intros Hpath Hidle Hrt Hne.
  rewrite (on_rejected_driver error s rt Hpath Hidle Hrt Hne). cbn [fst].
  set (s1 := set_awaiting _ _).
  pose proof (step_refresh_resolved randomUUID access_token refresh_token
                (set_retry true (Error.config error)) s1 eq_refl) as H.
  cbv zeta in H. destruct H as (_ & Heff & _).
  rewrite (emitted_app _ _ _ Heff), sends_imap, last_imap_snoc.
  eexists. split; [done|].
  split; [done|]. split; [done|].
  split.
  { apply outgoing_authorization_own.
    - apply stored_access_token.
    - simpl. apply lookup_insert_eq. }
  match goal with |- context [failed 401 body ?c] => set (replay := c) end.
  rewrite (on_rejected_switch (failed 401 body replay) _ later eq_refl eq_refl).
  destruct (status_switch _ _) as [shown outcome] eqn:Hsw.
  cbn [fst snd].
  rewrite (emitted_app _ _ _ (emit_toasts_effects shown later)).
  rewrite refresh_calls_of_errors, sends_of_errors.
  split; [by destruct body; simpl in Hsw; injection Hsw as <- <-|].
  split; [done|]. split; [done|].
  apply emit_toasts_frame.
Qed.

(** ** The defaults of the client *)

Lemma call_sends (config : Config) (s : State) :
  sends (emitted s (step randomUUID (Call config) s).1)
  = [outgoing (localStorage s) (defaults s) (randomUUID (draws s)) config].
Proof.
  simpl.
  by rewrite (emitted_app s _
                [Send (outgoing (localStorage s) (defaults s)
                                (randomUUID (draws s)) config)]).
Qed.

Lemma step_refresh_resolved_defaults
    (a r : string) (driver : Config) (s : State) :
  awaiting s = Some driver →
  defaults (step randomUUID (RefreshResolved a r) s).1
  = <["Authorization" := bearer a]> (defaults s).
Proof.
  intros Hd. unfold step. rewrite Hd.
  pose proof (refresh_succeeded_spec randomUUID a r driver (set_awaiting None s)) as H.
  destruct (refresh_succeeded randomUUID a r driver (set_awaiting None s)).
  cbv zeta in H. cbn [fst snd] in *. by destruct H as (_ & _ & H & _).
Qed.

Lemma step_defaults (ev : Event) (s : State) :
  defaults (step randomUUID ev s).1 = defaults s
  ∨ ∃ a, defaults (step randomUUID ev s).1
         = <["Authorization" := bearer a]> (defaults s).
Proof.
  destruct ev as [c|response|error|a r|status].
  - by left.
  - left. simpl. unfold on_fulfilled. simpl. by destruct (truthy _ && negb _).
  - left. rewrite step_failure. cbn [fst]. unfold on_rejected.
    destruct (Error.response error) as [response|]; [|done].
    destruct (bool_decide _ && negb _).
    + destruct (isRefreshing s); [done|]. by destruct (negb _).
    + destruct (status_switch _ _) as [shown outcome].
      simpl. apply emit_toasts_frame.
  - destruct (awaiting s) as [driver|] eqn:Hd.
    + right. exists a. by apply (step_refresh_resolved_defaults a r driver).
    + rewrite step_not_awaiting by done. by left.
  - destruct (awaiting s) as [driver|] eqn:Hd.
    + rewrite (step_refresh_failed status driver s Hd). by left.
    + rewrite step_not_awaiting by done. by left.
Qed.

(** Once a renewal has written it, the bearer default stays. *)
Lemma run_keeps_bearer_default (evs : list Event) (s : State) :
  (∃ t, defaults s !! "Authorization" = Some (bearer t)) →
  ∃ t, defaults (run randomUUID evs s).1 !! "Authorization" = Some (bearer t).
Proof.
  revert s. induction evs as [|ev rest IH]; intros s Hs; [done|].
  rewrite run_cons. cbn [fst]. apply IH.
  destruct (step_defaults ev s) as [-> | [a ->]]; [done|].
  exists a. apply lookup_insert_eq.
Qed.

(** X5.  A renewal that succeeds writes the new bearer token into the
    defaults of the client, and nothing ever removes it from there.  So
    whatever happens afterwards, also when the session has been torn
    down and no access token is stored any more, a call whose
    descriptor names no [Authorization] header of its own is still sent
    with a bearer credential. *)
Theorem bearer_default_outlives_the_session
    (access_token refresh_token : string) (driver config : Config)
    (evs : list Event) (s : State) :
  awaiting s = Some driver →
  headers config !! "Authorization" = None →
  truthy (localStorage
            (run randomUUID evs
               (step randomUUID (RefreshResolved access_token refresh_token) s).1).1
          !! "access_token") = false →
  ∃ sent token,
    sends (emitted
             (run randomUUID evs
                (step randomUUID (RefreshResolved access_token refresh_token) s).1).1
             (step randomUUID (Call config)
                (run randomUUID evs
                   (step randomUUID (RefreshResolved access_token refresh_token) s).1).1).1)
    = [sent]
    ∧ headers sent !! "Authorization" = Some (bearer token).
Proof.
  intros Hd Hc Hno.
  assert (∃ t, defaults (step randomUUID (RefreshResolved access_token refresh_token) s).1
               !! "Authorization" = Some (bearer t)) as H1.
  { rewrite (step_refresh_resolved_defaults _ _ driver s Hd).
    exists access_token. apply lookup_insert_eq. }
  destruct (run_keeps_bearer_default evs _ H1) as (t & Ht).
  set (s2 := (run randomUUID evs _).1) in *.
  exists (outgoing (localStorage s2) (defaults s2) (randomUUID (draws s2)) config), t.
  split; [apply call_sends|].
  unfold outgoing. rewrite interceptor_authorization, Hno. simpl.
  rewrite lookup_union_r by done. done.
Qed.

(** ** Bodies the switch cannot read *)

Lemma switch_null_body (status : Z) :
  fixed_message status = false → status_switch status NullBody = ([], Throws).
Proof.
  intros Hfixed.
  destruct (decide (status = 400%Z)) as [->|?]; [done|].
  destruct (decide (status = 422%Z)) as [->|?]; [done|].
  by rewrite status_switch_default
    by (first [assumption | intros ->; vm_compute in Hfixed; discriminate]).
Qed.

Lemma switch_fixed_message (status : Z) (data : Body) :
  fixed_message status = true →
  ∃ text, status_switch status data = ([DetailString text], Returns).
Proof.
  intros Hfixed. apply bool_decide_eq_true in Hfixed.
  repeat (apply elem_of_cons in Hfixed as [->|Hfixed]; [by eexists|]).
  by apply elem_of_nil in Hfixed.
Qed.

(** X13.  A failure answered with a [null] body, outside the renewal
    branch.  Where the case of the status reads [data.detail] (400, 422,
    every status without a case of its own, and 401 on a retried
    request) the handler throws before anything is shown: the caller
    gets the TypeError instead of the error, and the client is left
    exactly as it was.  Where the case shows a fixed message (403, 404,
    429, 500, 502, 503, 504) the body is not read: that one message is
    shown and the caller gets the error. *)
Theorem null_body_throws
    (error : Error.t) (response : Response.t) (s : State) :
  Error.response error = Some response →
  Response.data response = NullBody →
  takes_renewal_path error = false →
  if fixed_message (Response.status response)
  then (on_rejected error s).2 = Rejected error
       ∧ ∃ text, emitted s (on_rejected error s).1
                 = [ToastError (DetailString text)]
  else on_rejected error s = (s, RejectedTypeError).
Proof.
  intros Hr Hnull Hpath.
  rewrite (on_rejected_switch error response s Hr Hpath), Hnull.
  destruct (fixed_message (Response.status response)) eqn:Hfixed.
  - destruct (switch_fixed_message _ NullBody Hfixed) as [text ->].
    split; [done|]. exists text. apply emitted_emit.
  - by rewrite switch_null_body.
Qed.

(** X15.  Outside the renewal branch the handler always settles the
    promise it returned, without suspending or queueing: with the error
    it was given when the switch can read the body, and with the
    TypeError of the read otherwise. *)
Theorem handler_settles (error : Error.t) (s : State) :
  takes_renewal_path error = false →
  (on_rejected error s).2
  = (if readable_error error then Rejected error else RejectedTypeError)
  ∧ awaiting (on_rejected error s).1 = awaiting s
  ∧ pendingRequests (on_rejected error s).1 = pendingRequests s.
Proof.
  intros Hpath.
  destruct (on_rejected_shown error s Hpath) as (shown & outcome & -> & Hsw).
  cbn [fst snd].
  destruct (emit_toasts_frame shown s) as (_ & _ & _ & -> & -> & _).
  split; [|done]. unfold readable_error.
  destruct (Error.response error) as [response|].
  - pose proof (switch_outcome (Response.status response)
                  (Response.data response)) as Hout.
    rewrite Hsw in Hout. simpl in Hout. rewrite Hout.
    by destruct (readable _ _).
  - by destruct Hsw as [_ ->].
Qed.

Lemma validation_toasts_stop
    (good : list (option ValidationError)) (bad : option ValidationError)
    (rest : list (option ValidationError)) :
  Forall (λ err, is_Some (validation_line err)) good →
  validation_line bad = None →
  validation_toasts (good ++ bad :: rest)
  = (omap (λ err, DetailString <$> validation_line err) good, Throws).
Proof.
  intros Hgood Hbad. induction Hgood as [|err good [line Hline] _ IH]; simpl.
  - by rewrite Hbad.
  - by rewrite Hline, IH.
Qed.

(** X14.  A 422 whose [detail] is a list is shown entry by entry.  At
    the first entry that cannot be rendered (a [null] entry, or one
    whose [loc] is neither missing nor an array) the handler throws:
    the entries before it have been shown, in order, none after it is,
    and the caller gets the TypeError instead of the error.  Nothing
    else of the client changes. *)
Theorem validation_list_stops_at_bad_entry
    (good : list (option ValidationError)) (bad : option ValidationError)
    (rest : list (option ValidationError))
    (note : option string) (c : Config) (s : State) :
  Forall (λ err, is_Some (validation_line err)) good →
  validation_line bad = None →
  let error :=
    failed 422 (Fields note (Some (DetailArray (good ++ bad :: rest)))) c in
  (on_rejected error s).2 = RejectedTypeError
  ∧ emitted s (on_rejected error s).1
    = omap (λ err, (λ line, ToastError (DetailString line))
                     <$> validation_line err) good
  ∧ localStorage (on_rejected error s).1 = localStorage s
  ∧ isRefreshing (on_rejected error s).1 = isRefreshing s
  ∧ pendingRequests (on_rejected error s).1 = pendingRequests s.
Proof.
  intros Hgood Hbad error. subst error.
  rewrite (on_rejected_switch (failed 422 _ c) _ s eq_refl eq_refl). simpl.
  rewrite (validation_toasts_stop good bad rest Hgood Hbad). cbn [fst snd].
  rewrite (emitted_app _ _ _ (emit_toasts_effects _ s)).
  destruct (emit_toasts_frame
              (omap (λ err, DetailString <$> validation_line err) good) s)
    as (-> & _ & -> & -> & _).
  split; [done|]. split; [|done].
  clear. induction good as [|err good IH]; [done|].
  simpl. destruct (validation_line err); simpl; [f_equal|]; exact IH.
Qed.

(** ** The queue *)

Lemma on_rejected_queue (error : Error.t) (s : State) :
  ∃ q, pendingRequests (on_rejected error s).1 = pendingRequests s ++ q.
Proof.
  unfold on_rejected.
  destruct (Error.response error) as [response|];
    [|exists []; by rewrite app_nil_r].
  destruct (bool_decide _ && negb _).
  - destruct (isRefreshing s); [by eexists|].
    destruct (negb _); exists []; by rewrite app_nil_r.
  - destruct (status_switch _ _) as [shown outcome].
    exists []. rewrite app_nil_r. simpl. apply emit_toasts_frame.
Qed.

(** One event either keeps the queue, adding at its back at most, or
    dispatches all of it in order. *)
Lemma step_queue (ev : Event) (s : State) :
  ∃ l, effects (step randomUUID ev s).1 = effects s ++ l
       ∧ ((∃ q, pendingRequests (step randomUUID ev s).1 = pendingRequests s ++ q)
          ∨ (∃ before replayed after,
                sends l = before ++ replayed ++ after
                ∧ Forall2 same_request replayed (pendingRequests s))).
Proof.
  destruct ev as [c|response|error|a r|status].
  - eexists. split; [done|]. left. exists []. by rewrite app_nil_r.
  - destruct (step_log (Success response) s) as (l & Hl). exists l.
    split; [done|]. left. exists []. rewrite app_nil_r.
    simpl. unfold on_fulfilled. simpl. by destruct (truthy _ && negb _).
  - destruct (step_log (Failure error) s) as (l & Hl). exists l.
    split; [done|]. left. rewrite step_failure. apply on_rejected_queue.
  - destruct (awaiting s) as [driver|] eqn:Hd.
    + destruct (step_refresh_resolved randomUUID a r driver s Hd) as (_ & He & _).
      eexists. split; [exact He|]. right.
      rewrite sends_imap, imap_app.
      eexists [], _, _. split; [done|].
      apply Forall2_imap. intros i c. apply outgoing_same_request.
    + rewrite step_not_awaiting by done.
      exists []. rewrite app_nil_r. split; [done|]. left.
      exists []. by rewrite app_nil_r.
  - destruct (step_log (RefreshFailed status) s) as (l & Hl). exists l.
    split; [done|]. left. exists []. rewrite app_nil_r.
    destruct (awaiting s) as [driver|] eqn:Hd.
    + by rewrite (step_refresh_failed status driver s Hd).
    + by rewrite step_not_awaiting.
Qed.

Lemma run_queue (evs : list Event) (s : State) :
  ∃ l, effects (run randomUUID evs s).1 = effects s ++ l
       ∧ ((∃ q, pendingRequests (run randomUUID evs s).1 = pendingRequests s ++ q)
          ∨ (∃ before replayed after,
                sends l = before ++ replayed ++ after
                ∧ Forall2 same_request replayed (pendingRequests s))).
Proof.
  revert s. induction evs as [|ev rest IH]; intros s.
  - exists []. rewrite app_nil_r. split; [done|]. left.
    exists []. by rewrite app_nil_r.
  - rewrite run_cons. cbn [fst].
    destruct (step_queue ev s) as (l1 & He1 & H1).
    destruct (IH (step randomUUID ev s).1) as (l2 & He2 & H2).
    exists (l1 ++ l2). split; [by rewrite He2, He1, app_assoc|].
    rewrite sends_app.
    destruct H1 as [(q1 & Hq1) | (b1 & rp1 & a1 & Hs1 & Hf1)].
    + destruct H2 as [(q2 & Hq2) | (b2 & rp2 & a2 & Hs2 & Hf2)].
      * left. exists (q1 ++ q2). by rewrite Hq2, Hq1, app_assoc.
      * right. rewrite Hq1 in Hf2.
        apply Forall2_app_inv_r in Hf2 as (rpa & rpb & Hfa & _ & ->).
        exists (sends l1 ++ b2), rpa, (rpb ++ a2).
        split; [|done]. rewrite Hs2. by rewrite <- !app_assoc.
    + right. exists b1, rp1, (a1 ++ sends l2).
      split; [|done]. rewrite Hs1. by rewrite <- !app_assoc.
Qed.

(** X7.  A queued request is never dropped.  After any run of the
    client, either the queue still begins with the requests that were
    queued at the start, in their order, or these requests have all
    been dispatched, one after the other in that order, each as the
    descriptor that was queued. *)
Theorem queued_requests_are_kept (evs : list Event) (s : State) :
  let s' := (run randomUUID evs s).1 in
  (∃ q, pendingRequests s' = pendingRequests s ++ q)
  ∨ (∃ before replayed after,
        sends (emitted s s') = before ++ replayed ++ after
        ∧ Forall2 same_request replayed (pendingRequests s)).
Proof.
  cbv zeta. destruct (run_queue evs s) as (l & He & [H|H]); [by left|].
  right. by rewrite (emitted_app _ _ _ He).
Qed.

(** ** Dispatching a descriptor again *)

Lemma interceptor_lookup (ls : gmap string string) (uuid : string)
    (c : Config) (name : string) :
  headers (request_interceptor ls uuid c) !! name
  = if decide (name = "X-Request-ID") then Some uuid
    else if decide (name = "X-Company-Id") then
      if truthy (ls !! "current_company_id")
      then ls !! "current_company_id" else headers c !! name
    else if decide (name = "Authorization") then
      if truthy (ls !! "access_token")
      then bearer <$> ls !! "access_token" else headers c !! name
    else headers c !! name.
Proof.
  repeat case_decide; subst.
  - apply interceptor_request_id.
  - apply interceptor_company.
  - apply interceptor_authorization.
  - by apply interceptor_other_headers.
Qed.

Lemma truthy_is_Some (v : option string) : truthy v = true → is_Some v.
Proof. destruct v; [by eexists|done]. Qed.

Lemma config_eq (c1 c2 : Config) :
  same_request c1 c2 → headers c1 = headers c2 → c1 = c2.
Proof.
  destruct c1, c2. unfold same_request. simpl.
  by intros (-> & -> & -> & -> & ->) ->.
Qed.

Lemma interceptor_twice (ls : gmap string string) (u1 u2 : string) (c : Config) :
  request_interceptor ls u2 (request_interceptor ls u1 c)
  = request_interceptor ls u2 c.
Proof.
  apply config_eq; [done|]. apply map_eq. intros name.
  rewrite !interceptor_lookup.
  repeat case_decide; try done.
  - by destruct (truthy (ls !! "current_company_id")).
  - by destruct (truthy (ls !! "access_token")).
Qed.

(** The headers of a dispatched descriptor already hold every default. *)
Lemma outgoing_absorbs_defaults (ls dflt : gmap string string)
    (uuid : string) (c : Config) :
  headers (outgoing ls dflt uuid c) ∪ dflt = headers (outgoing ls dflt uuid c).
Proof.
  apply map_eq. intros name.
  destruct (headers (outgoing ls dflt uuid c) !! name) as [v|] eqn:Hout.
  { by apply lookup_union_Some_l. }
  rewrite lookup_union_r by done.
  destruct (dflt !! name) as [v|] eqn:Hd; [|done].
  exfalso. unfold outgoing in Hout. rewrite interceptor_lookup in Hout.
  simpl in Hout.
  assert (is_Some ((headers c ∪ dflt) !! name)) as [w Hw].
  { apply lookup_union_is_Some. right. by eexists. }
  repeat case_decide; subst; try done.
  - destruct (truthy (ls !! "current_company_id")) eqn:Ht.
    + apply truthy_is_Some in Ht as [x Hx]. by rewrite Hx in Hout.
    + by rewrite Hw in Hout.
  - destruct (truthy (ls !! "access_token")) eqn:Ht.
    + apply truthy_is_Some in Ht as [x Hx]. by rewrite Hx in Hout.
    + by rewrite Hw in Hout.
  - by rewrite Hw in Hout.
Qed.

(** X11.  Dispatching a descriptor that was already dispatched, under
    the same store and the same defaults, changes nothing but the trace
    id: it is sent exactly as a first dispatch with the new trace id
    would have sent it. *)
Theorem redispatch_changes_only_trace_id
    (ls dflt : gmap string string) (u1 u2 : string) (c : Config) :
  outgoing ls dflt u2 (outgoing ls dflt u1 c) = outgoing ls dflt u2 c
  ∧ ∀ s, sends (emitted s
                  (step randomUUID
                     (Call (outgoing (localStorage s) (defaults s) u1 c)) s).1)
         = [outgoing (localStorage s) (defaults s) (randomUUID (draws s)) c].
Proof.
  assert (∀ ls dflt u, outgoing ls dflt u (outgoing ls dflt u1 c)
                       = outgoing ls dflt u c) as H.
  { clear ls dflt. intros ls dflt u. unfold outgoing at 1.
    replace (set_headers (headers (outgoing ls dflt u1 c) ∪ dflt)
                         (outgoing ls dflt u1 c))
      with (outgoing ls dflt u1 c).
    - unfold outgoing. apply interceptor_twice.
    - apply config_eq; [done|].
      exact (eq_sym (outgoing_absorbs_defaults ls dflt u1 c)). }
  split; [apply H|].
  intros s. by rewrite call_sends, H.
Qed.

(** ** Token rotation *)

(** X12.  After a renewal has succeeded with a non-empty refresh token,
    the next not yet retried 401 starts a renewal that posts exactly
    that refresh token, the one the previous renewal returned. *)
Theorem next_renewal_uses_the_new_refresh_token
    (access_token refresh_token : string) (driver : Config)
    (error : Error.t) (s : State) :
  awaiting s = Some driver →
  refresh_token ≠ "" →
  takes_renewal_path error = true →
  refresh_calls
    (emitted (step randomUUID (RefreshResolved access_token refresh_token) s).1
       (on_rejected error
          (step randomUUID (RefreshResolved access_token refresh_token) s).1).1)
  = [refresh_token]
  ∧ (on_rejected error
       (step randomUUID (RefreshResolved access_token refresh_token) s).1).2
    = Suspended.
Proof.
  intros Hd Hne Hpath.
  pose proof (step_refresh_resolved randomUUID access_token refresh_token
                driver s Hd) as H.
  cbv zeta in H. destruct H as (Hls & _ & _ & _ & _ & Hidle & _).
  set (s1 := (step randomUUID (RefreshResolved access_token refresh_token) s).1) in *.
  assert (localStorage s1 !! "refresh_token" = Some refresh_token) as Hrt
    by (rewrite Hls; apply lookup_insert_eq).
  rewrite (on_rejected_driver error s1 refresh_token Hpath Hidle Hrt Hne).
  cbn [fst snd]. split; [|done].
  by rewrite (emitted_app s1 _ [PostRefresh refresh_token]).
Qed.

End Coverage.

(** ** Pagination *)

Section Paging.

Context {Key : Type}.
Variable fetchFn : gmap string Pagination.Param → option Pagination.PageBody.
Variable key : Key.

Import Pagination.

(** With no [pageParam] the first page is asked for. *)
Lemma pages_first (fuel : nat) (ps : option (gmap string Param)) :
  pages fuel (createPaginatedQuery fetchFn key (only_params ps)) None
  = pages fuel (createPaginatedQuery fetchFn key (only_params ps)) (Some 1).
Proof. by destruct fuel. Qed.

(** One request of the consumer. *)
Lemma pages_step (fuel : nat) (ps : option (gmap string Param))
    (p : nat) (body : PageBody) :
  fetchFn (request_params (@only_params Key ps) p) = Some body →
  pages (S fuel) (createPaginatedQuery fetchFn key (only_params ps)) (Some p)
  = {| data := body;
       nextPage := if has_more body then Some (p + 1) else None;
       total := body_total body |}
    :: (if has_more body
        then pages fuel (createPaginatedQuery fetchFn key (only_params ps))
                   (Some (p + 1))
        else []).
Proof.
  intros H. simpl. unfold built_queryFn. simpl. rewrite H.
  by destruct (has_more body).
Qed.

Lemma pages_from
    (ps : option (gmap string Param)) (serve : nat → PageBody)
    (n left p fuel : nat) :
  (∀ p, fetchFn (request_params (@only_params Key ps) p) = Some (serve p)) →
  (∀ p, has_more (serve p) = bool_decide (p < n)) →
  p + left = n → left < fuel →
  data <$> pages fuel (createPaginatedQuery fetchFn key (only_params ps)) (Some p)
  = serve <$> seq p (S left)
  ∧ nextPage <$> pages fuel (createPaginatedQuery fetchFn key (only_params ps)) (Some p)
    = (Some <$> seq (S p) left) ++ [None].
Proof.
  intros Hserve Hmore. revert p fuel.
  induction left as [|left IH]; intros p fuel Hn Hfuel.
  - destruct fuel as [|fuel]; [lia|].
    rewrite (pages_step fuel ps p (serve p) (Hserve p)), Hmore.
    by rewrite bool_decide_eq_false_2 by lia.
  - destruct fuel as [|fuel]; [lia|].
    destruct (IH (S p) fuel) as (IHd & IHn); [lia..|].
    rewrite (pages_step fuel ps p (serve p) (Hserve p)), Hmore.
    rewrite bool_decide_eq_true_2 by lia.
    rewrite Nat.add_1_r, !fmap_cons. cbn [data nextPage].
    by rewrite IHd, IHn.
Qed.


Lemma request_params_override
    (ps : gmap string Param) (v : Param) (pageParam : nat) :
  ps !! "page" = Some v →
  request_params (@only_params Key (Some ps)) pageParam = ps.
Proof.
  intros Hv. unfold request_params. simpl. apply map_eq. intros k.
  destruct (ps !! k) as [x|] eqn:Hk.
  - by apply lookup_union_Some_l.
  - rewrite lookup_union_r by done.
    apply lookup_singleton_ne. intros <-. by rewrite Hv in Hk.
Qed.


End Paging.

(** ** Downloads *)

(** X10.  [downloadFile] leaves no trace in the page.  On a page whose
    nodes and object URLs are the ones handed out so far, the download
    that is started is named [filename] and its link resolves to the
    blob that was passed in; afterwards [document.body] has the children
    it had before and the registry of object URLs is what it was, so
    any number of downloads can follow one another. *)
Theorem download_leaves_no_trace
    (blob filename : string) (b : Download.Browser) :
  Download.well_formed b →
  Download.children (Download.downloadFile blob filename b)
  = Download.children b
  ∧ Download.objectURLs (Download.downloadFile blob filename b)
    = Download.objectURLs b
  ∧ Download.downloads (Download.downloadFile blob filename b)
    = Download.downloads b ++ [(filename, Some blob)]
  ∧ Download.well_formed (Download.downloadFile blob filename b).
Proof.
  intros (Hnodes & Hurls). unfold Download.downloadFile. simpl.
  assert (filter (λ n, n ≠ Download.created_nodes b) (Download.children b)
          = Download.children b) as Hkeep.
  { clear Hurls. induction Hnodes as [|n l Hn Hl IH]; [done|].
    rewrite filter_cons_True by lia. by rewrite IH. }
  split.
  { rewrite filter_app, Hkeep, filter_cons_False, filter_nil by (intros H; by apply H).
    by rewrite app_nil_r. }
  split; [apply delete_insert_id, Hurls; lia|].
  split; [by rewrite lookup_insert_eq|].
  split; simpl.
  - rewrite filter_app, Hkeep, filter_cons_False, filter_nil by (intros H; by apply H).
    rewrite app_nil_r. eapply Forall_impl; [exact Hnodes|]. simpl. lia.
  - intros n Hn. rewrite delete_insert_id by (apply Hurls; lia).
    apply Hurls. lia.
Qed.

(** * The further properties on concrete runs *)

Lemma store_discipline_witness :
  paired (localStorage session)
  ∧ "current_company_id" ≠ "access_token"
  ∧ "current_company_id" ≠ "refresh_token"
  ∧ paired (localStorage
              (run uuid_of (three_calls ++ three_expired ++ [RefreshFailed None])
                   session).1)
  ∧ (localStorage
       (run uuid_of (three_calls ++ three_expired ++ [RefreshFailed None])
            session).1 !! "current_company_id"
     = localStorage session !! "current_company_id"
     ∨ (localStorage
          (run uuid_of (three_calls ++ three_expired ++ [RefreshFailed None])
               session).1 !! "current_company_id" = None
        ∧ ("current_company_id" = "user"
           ∨ "current_company_id" = "current_company_id"))).
Proof.
  assert (paired (localStorage session)) as H1
    by (split; intros _; eexists; reflexivity).
  assert ("current_company_id" ≠ "access_token") as H2 by discriminate.
  assert ("current_company_id" ≠ "refresh_token") as H3 by discriminate.
  destruct (store_discipline uuid_of
              (three_calls ++ three_expired ++ [RefreshFailed None])
              session "current_company_id" H1 H2 H3) as (Hp & Hk).
  split; [exact H1|]. split; [exact H2|]. split; [exact H3|].
  split; [exact Hp|exact Hk].
Defined.

Lemma every_expiry_tears_down_witness :
  Unauthenticated (initial ∅)
  ∧ Forall (λ e, takes_renewal_path e = true)
           [expired (get "/a"); expired (get "/b")]
  ∧ emitted (initial ∅)
      (run uuid_of (Failure <$> [expired (get "/a"); expired (get "/b")])
           (initial ∅)).1
    = teardown ++ teardown.
Proof.
  assert (Unauthenticated (initial ∅)) as H1 by (repeat split; reflexivity).
  assert (Forall (λ e, takes_renewal_path e = true)
            [expired (get "/a"); expired (get "/b")]) as H2
    by (repeat constructor).
  destruct (every_expiry_tears_down uuid_of
              [expired (get "/a"); expired (get "/b")] (initial ∅) H1 H2)
    as (He & _).
  split; [assumption|]. split; [assumption|]. exact He.
Defined.

Lemma driver_is_replayed_once_witness :
  takes_renewal_path (expired (sent_as 0 (get "/a"))) = true
  ∧ isRefreshing in_flight = false
  ∧ localStorage in_flight !! "refresh_token" = Some "R1"
  ∧ "R1" ≠ ""
  ∧ ∃ replay,
      last (sends (emitted (on_rejected (expired (sent_as 0 (get "/a"))) in_flight).1
                     (step uuid_of (RefreshResolved "A2" "R2")
                           (on_rejected (expired (sent_as 0 (get "/a"))) in_flight).1).1))
      = Some replay
      ∧ _retry replay = true
      ∧ headers replay !! "Authorization" = Some (bearer "A2")
      ∧ (on_rejected (failed 401 no_body replay) session).2
        = Rejected (failed 401 no_body replay).
Proof.
  assert (takes_renewal_path (expired (sent_as 0 (get "/a"))) = true) as H1
    by reflexivity.
  assert (isRefreshing in_flight = false) as H2 by reflexivity.
  assert (localStorage in_flight !! "refresh_token" = Some "R1") as H3
    by reflexivity.
  assert ("R1" ≠ "") as H4 by discriminate.
  destruct (driver_is_replayed_once uuid_of (expired (sent_as 0 (get "/a")))
              "R1" "A2" "R2" no_body in_flight session H1 H2 H3 H4)
    as (replay & Hlast & _ & Hretry & Hauth & Hrej & _).
  do 4 (split; [assumption|]).
  exists replay. repeat split; assumption.
Defined.

Lemma bearer_default_witness :
  awaiting renewing = Some (set_retry true (sent_as 0 (get "/a")))
  ∧ headers (get "/auth/login") !! "Authorization" = None
  ∧ truthy (localStorage
              (run uuid_of [Failure (expired (get "/x")); RefreshFailed None]
                 (step uuid_of (RefreshResolved "A2" "R2") renewing).1).1
            !! "access_token") = false
  ∧ ∃ sent token,
      sends (emitted
               (run uuid_of [Failure (expired (get "/x")); RefreshFailed None]
                  (step uuid_of (RefreshResolved "A2" "R2") renewing).1).1
               (step uuid_of (Call (get "/auth/login"))
                  (run uuid_of [Failure (expired (get "/x")); RefreshFailed None]
                     (step uuid_of (RefreshResolved "A2" "R2") renewing).1).1).1)
      = [sent]
      ∧ headers sent !! "Authorization" = Some (bearer token).
Proof.
  assert (awaiting renewing = Some (set_retry true (sent_as 0 (get "/a"))))
    as H1 by reflexivity.
  assert (headers (get "/auth/login") !! "Authorization" = None) as H2
    by reflexivity.
  assert (truthy (localStorage
              (run uuid_of [Failure (expired (get "/x")); RefreshFailed None]
                 (step uuid_of (RefreshResolved "A2" "R2") renewing).1).1
            !! "access_token") = false) as H3 by reflexivity.
  do 3 (split; [assumption|]).
  exact (bearer_default_outlives_the_session uuid_of "A2" "R2"
           (set_retry true (sent_as 0 (get "/a"))) (get "/auth/login")
           [Failure (expired (get "/x")); RefreshFailed None] renewing H1 H2 H3).
Defined.

(** The stale credential of the example is the one of the last
    renewal. *)
Example bearer_default_is_A2 :
  (λ c, headers c !! "Authorization")
    <$> sends (emitted
                 (run uuid_of [Failure (expired (get "/x")); RefreshFailed None]
                    (step uuid_of (RefreshResolved "A2" "R2") renewing).1).1
                 (step uuid_of (Call (get "/auth/login"))
                    (run uuid_of [Failure (expired (get "/x")); RefreshFailed None]
                       (step uuid_of (RefreshResolved "A2" "R2") renewing).1).1).1)
  = [Some "Bearer A2"].
Proof. reflexivity. Qed.



Lemma download_witness :
  Download.well_formed Download.empty_page
  ∧ Download.children
      (Download.downloadFile "a,b\n1,2" "transactions.csv" Download.empty_page)
    = [0; 1]
  ∧ Download.downloads
      (Download.downloadFile "a,b\n1,2" "transactions.csv" Download.empty_page)
    = [("transactions.csv", Some "a,b\n1,2")].
Proof.
  assert (Download.well_formed Download.empty_page) as H.
  { split; [repeat constructor|]. intros n _. apply lookup_empty. }
  destruct (download_leaves_no_trace "a,b\n1,2" "transactions.csv"
              Download.empty_page H) as (Hc & _ & Hd & _).
  split; [assumption|]. split; assumption.
Defined.

Lemma next_renewal_witness :
  awaiting renewing = Some (set_retry true (sent_as 0 (get "/a")))
  ∧ "R2" ≠ ""
  ∧ takes_renewal_path (expired (get "/x")) = true
  ∧ refresh_calls
      (emitted (step uuid_of (RefreshResolved "A2" "R2") renewing).1
         (on_rejected (expired (get "/x"))
            (step uuid_of (RefreshResolved "A2" "R2") renewing).1).1)
    = ["R2"].
Proof.
  assert (awaiting renewing = Some (set_retry true (sent_as 0 (get "/a"))))
    as H1 by reflexivity.
  assert ("R2" ≠ "") as H2 by discriminate.
  assert (takes_renewal_path (expired (get "/x")) = true) as H3 by reflexivity.
  destruct (next_renewal_uses_the_new_refresh_token uuid_of "A2" "R2"
              (set_retry true (sent_as 0 (get "/a"))) (expired (get "/x"))
              renewing H1 H2 H3) as (Hcalls & _).
  do 3 (split; [assumption|]). exact Hcalls.
Defined.

Lemma null_body_witness :
  Error.response (failed 400 NullBody (get "/a"))
  = Some {| Response.status := 400; Response.data := NullBody;
            Response.config := get "/a" |}
  ∧ takes_renewal_path (failed 400 NullBody (get "/a")) = false
  ∧ on_rejected (failed 400 NullBody (get "/a")) renewing
    = (renewing, RejectedTypeError).
Proof.
  assert (Error.response (failed 400 NullBody (get "/a"))
          = Some {| Response.status := 400; Response.data := NullBody;
                    Response.config := get "/a" |}) as H1 by reflexivity.
  assert (takes_renewal_path (failed 400 NullBody (get "/a")) = false) as H2
    by reflexivity.
  split; [exact H1|]. split; [exact H2|].
  exact (null_body_throws (failed 400 NullBody (get "/a")) _ renewing
           H1 eq_refl H2).
Defined.

Lemma validation_list_witness :
  let first := Some {| loc := LocArray ["body"; "email"];
                       msg := "not a valid address" |} in
  let last := Some {| loc := LocAbsent; msg := "missing" |} in
  let error :=
    failed 422 (Fields None (Some (DetailArray [first; None; last])))
           (get "/a") in
  Forall (λ err, is_Some (validation_line err)) [first]
  ∧ validation_line None = None
  ∧ (on_rejected error session).2 = RejectedTypeError
  ∧ emitted session (on_rejected error session).1
    = [ToastError (DetailString "body.email: not a valid address")].
Proof.
  cbv zeta.
  assert (Forall (λ err, is_Some (validation_line err))
            [Some {| loc := LocArray ["body"; "email"];
                     msg := "not a valid address" |}]) as H1
    by (repeat constructor; by eexists).
  assert (validation_line None = None) as H2 by reflexivity.
  destruct (validation_list_stops_at_bad_entry _ None
              [Some {| loc := LocAbsent; msg := "missing" |}]
              None (get "/a") session H1 H2) as (Hres & Hshown & _).
  split; [exact H1|]. split; [exact H2|]. split; [exact Hres|exact Hshown].
Defined.

Lemma handler_settles_witness :
  takes_renewal_path (failed 422 invalid_email (get "/a")) = false
  ∧ (on_rejected (failed 422 invalid_email (get "/a")) renewing).2
    = Rejected (failed 422 invalid_email (get "/a"))
  ∧ takes_renewal_path (failed 418 NullBody (get "/a")) = false
  ∧ (on_rejected (failed 418 NullBody (get "/a")) renewing).2
    = RejectedTypeError.
Proof.
  assert (takes_renewal_path (failed 422 invalid_email (get "/a")) = false)
    as H1 by reflexivity.
  assert (takes_renewal_path (failed 418 NullBody (get "/a")) = false)
    as H2 by reflexivity.
  split; [exact H1|].
  split; [exact (proj1 (handler_settles
                          (failed 422 invalid_email (get "/a")) renewing H1))|].
  split; [exact H2|].
  exact (proj1 (handler_settles (failed 418 NullBody (get "/a")) renewing H2)).
Defined.
